(** * Thread milling: geometry, pass radii, elevator, helix synthesis, planner

    A shallow embedding of [src/Mod/Path/PathScripts/PathThreadMilling.py]
    and the properties of it that the specification states.

    Number model.  Python's [float] values are modelled as real numbers
    ([R]): every arithmetic operation is exact, rounding is not modelled.
    Python's [int] values ([Passes], [TPI], loop indices) are [Z].
    An equality that holds here holds in the source up to rounding, and an
    inequality by a margin far above one unit in the last place carries
    over as it is.  What does not carry over is the end of the [while]
    loop of [threadCommands]: in binary64 a half pitch below the spacing
    of the floats at [z] leaves [z + hPitch] equal to [z], so the lemmas
    that the loop of the model ends say nothing of such a pitch.  For the numeric examples of the spec the geometry is
    also given on binary64 floats ([threadRadii_binary64],
    [threadPasses_binary64]) and evaluated there. *)

From Stdlib Require Import Floats Reals Lra Lia ZArith String List Bool.
Import ListNotations.
Open Scope R_scope.
#[local] Set Warnings "-inexact-float".

(** ** Comparisons of reals as booleans *)

Definition Rltb (a b : R) : bool := if Rlt_dec a b then true else false.
Definition Rleb (a b : R) : bool := if Rle_dec a b then true else false.
Definition Reqb (a b : R) : bool := if Req_dec_T a b then true else false.

(** ** Exceptions and results *)

Inductive exn : Type :=
| ZeroDivisionError
| AttributeError.

(** What a call comes to: a value, a raised exception, or no answer within
    the fuel given (only the [while] loop of [threadCommands] needs fuel). *)
Inductive result (A : Type) : Type :=
| Ok (a : A)
| Raise (e : exn)
| OutOfFuel.
Arguments Ok {A} a.
Arguments Raise {A} e.
Arguments OutOfFuel {A}.

(** [range(count)]: [0, 1, ..., count-1], empty when [count <= 0]. *)
Definition range (count : Z) : list Z := map Z.of_nat (seq 0 (Z.to_nat count)).

(** ** ThreadGeometry *)

(** math.sqrt(3)/2 ... 60deg triangle height *)
Definition SQRT_3_DIVIDED_BY_2 : R := 0.8660254037844386.

Definition threadRadii (internal : bool) (majorDia minorDia toolDia : R)
    (toolCrest : option R) : R * R :=
  let toolCrest := match toolCrest with None => 0 | Some c => c end in
  let H := ((majorDia - minorDia) / 2) * 1.6 in
  if internal then
    let outerTip := majorDia / 2 + H / 8 in
    let toolTip := outerTip - toolCrest * SQRT_3_DIVIDED_BY_2 in
    ((minorDia - toolDia) / 2, toolTip - toolDia / 2)
  else
    let innerTip := minorDia / 2 - H / 4 in
    let toolTip := innerTip - toolCrest * SQRT_3_DIVIDED_BY_2 in
    ((majorDia + toolDia) / 2, toolTip + toolDia / 2).

(** The type of the [radii] argument of [threadPasses]. *)
Definition radii_fn : Type := bool -> R -> R -> R -> option R -> R * R.

(** [float(major - minor) / count] raises [ZeroDivisionError] at
    [count = 0]; the comprehensions run over [range(count)]. *)
Definition threadPasses (count : Z) (radii : radii_fn) (internal : bool)
    (majorDia minorDia toolDia : R) (toolCrest : option R) : result (list R) :=
  let '(minor, major) := radii internal majorDia minorDia toolDia toolCrest in
  if (count =? 0)%Z then Raise ZeroDivisionError
  else
    let dr := (major - minor) / IZR count in
    if internal then Ok (map (fun i => minor + dr * IZR (i + 1)) (range count))
    else Ok (map (fun i => major - dr * IZR (i + 1)) (range count)).

(** ** ThreadGeometry on binary64 floats

    The same two functions with Python's own arithmetic: every literal and
    every operation is rounded to the nearest binary64 value. *)

(** [float(n)] for an [int] below 2^63 in absolute value. *)
Definition float_of_int (n : Z) : float :=
  if (n <? 0)%Z then PrimFloat.opp (PrimFloat.of_uint63 (Uint63.of_Z (- n)))
  else PrimFloat.of_uint63 (Uint63.of_Z n).

Definition SQRT_3_DIVIDED_BY_2_binary64 : float := 0.8660254037844386%float.

Definition threadRadii_binary64 (internal : bool) (majorDia minorDia toolDia : float)
    (toolCrest : option float) : float * float :=
  let toolCrest := match toolCrest with None => 0%float | Some c => c end in
  let H := (((majorDia - minorDia) / 2) * 1.6)%float in
  if internal then
    let outerTip := (majorDia / 2 + H / 8)%float in
    let toolTip := (outerTip - toolCrest * SQRT_3_DIVIDED_BY_2_binary64)%float in
    ((minorDia - toolDia) / 2, toolTip - toolDia / 2)%float
  else
    let innerTip := (minorDia / 2 - H / 4)%float in
    let toolTip := (innerTip - toolCrest * SQRT_3_DIVIDED_BY_2_binary64)%float in
    ((majorDia + toolDia) / 2, toolTip + toolDia / 2)%float.

Definition threadPasses_binary64 (count : Z)
    (radii : bool -> float -> float -> float -> option float -> float * float)
    (internal : bool) (majorDia minorDia toolDia : float) (toolCrest : option float)
    : result (list float) :=
  let '(minor, major) := radii internal majorDia minorDia toolDia toolCrest in
  if (count =? 0)%Z then Raise ZeroDivisionError
  else
    let dr := ((major - minor) / float_of_int count)%float in
    if internal
    then Ok (map (fun i => (minor + dr * float_of_int (i + 1))%float) (range count))
    else Ok (map (fun i => (major - dr * float_of_int (i + 1))%float) (range count)).

(** Adjacent elements grow (shrink) strictly. *)
Fixpoint strictly_increasing (l : list R) : Prop :=
  match l with
  | a :: (b :: _) as t => a < b /\ strictly_increasing t
  | _ => True
  end.

Fixpoint strictly_decreasing (l : list R) : Prop :=
  match l with
  | a :: (b :: _) as t => b < a /\ strictly_decreasing t
  | _ => True
  end.

(** ** Host values: vectors, commands, the operation's properties *)

Module FreeCAD.
Record Vector : Type := { x : R; y : R; z : R }.
End FreeCAD.

Module Path.
(** A command's parameters: a dict from axis letter to value. *)
Definition dict : Type := list (string * R).

Fixpoint get (k : string) (d : dict) : option R :=
  match d with
  | [] => None
  | (k', v) :: t => if String.eqb k k' then Some v else get k t
  end.

(** [d.update({k: v})]: the value is replaced where the key is present,
    the pair is added at the end where it is not. *)
Fixpoint update (k : string) (v : R) (d : dict) : dict :=
  match d with
  | [] => [(k, v)]
  | (k', v') :: t =>
      if String.eqb k k' then (k, v) :: t else (k', v') :: update k v t
  end.

Record Command : Type := { Name : string; Parameters : dict }.
End Path.

Definition G0 (p : Path.dict) : Path.Command := Path.Build_Command "G0" p.
Definition G1 (p : Path.dict) : Path.Command := Path.Build_Command "G1" p.

(** [comment(path, msg)] appends the marker command to [path]. *)
Definition comment (path : list Path.Command) (msg : string) : list Path.Command :=
  path ++ [Path.Build_Command ("(------- " ++ msg ++ " -------)") []].

Inductive Orientation : Type := LeftHand | RightHand.

Inductive CutDirection : Type := DirectionClimb | DirectionConventional.

Inductive ThreadTypeName : Type :=
| ThreadTypeCustomExternal
| ThreadTypeCustomInternal
| ThreadTypeImperialExternal2A
| ThreadTypeImperialExternal3A
| ThreadTypeImperialInternal2B
| ThreadTypeImperialInternal3B
| ThreadTypeMetricExternal4G6G
| ThreadTypeMetricExternal6G
| ThreadTypeMetricInternal6H.

Definition ThreadTypeName_eq_dec (a b : ThreadTypeName) : {a = b} + {a <> b}.
Proof. decide equality. Defined.

Definition ThreadTypesExternal : list ThreadTypeName :=
  [ThreadTypeCustomExternal; ThreadTypeImperialExternal2A;
   ThreadTypeImperialExternal3A; ThreadTypeMetricExternal4G6G;
   ThreadTypeMetricExternal6G].

Definition ThreadTypesInternal : list ThreadTypeName :=
  [ThreadTypeCustomInternal; ThreadTypeImperialInternal2B;
   ThreadTypeImperialInternal3B; ThreadTypeMetricInternal6H].

(** The properties of the operation object that the planner reads.  Its
    [Label], read for trace calls only, is a property every document
    object has; it is not a field here. *)
Record Obj : Type := {
  ThreadOrientation : Orientation;
  ThreadType : ThreadTypeName;
  MajorDiameter : R;
  MinorDiameter : R;
  Pitch : R;
  TPI : Z;
  Passes : Z;
  Direction : CutDirection;
  LeadInOut : bool;
  StartDepth : R;
  FinalDepth : R;
  ClearanceHeight : R
}.

Definition set_Passes (obj : Obj) (n : Z) : Obj :=
  {| ThreadOrientation := ThreadOrientation obj; ThreadType := ThreadType obj;
     MajorDiameter := MajorDiameter obj; MinorDiameter := MinorDiameter obj;
     Pitch := Pitch obj; TPI := TPI obj; Passes := n;
     Direction := Direction obj; LeadInOut := LeadInOut obj;
     StartDepth := StartDepth obj; FinalDepth := FinalDepth obj;
     ClearanceHeight := ClearanceHeight obj |}.

(** A tool object; [None] is an attribute the object does not have. *)
Record Tool : Type := {
  Label : option string;
  Diameter : option R;
  Crest : option R
}.

(** The fields of [self] that the planner reads. *)
Record Op : Type := { tool : Tool; vertRapid : R; horizFeed : R }.

(** ** Effects: the command list, the error log, exceptions *)

(** The messages given to [PathLog.error], by their format string. *)
Inductive Diagnostic : Type :=
| ToolTooBig (d D : R)
| BadPitch (pitch : R)
| NoSuitableTool.

Record World : Type := {
  commandlist : list Path.Command;
  errors : list Diagnostic
}.

(** A computation reads and writes the world; what it wrote before an
    exception stays written. *)
Definition M (A : Type) : Type := World -> result A * World.

Definition ret {A} (a : A) : M A := fun w => (Ok a, w).

Definition bind {A B} (m : M A) (k : A -> M B) : M B :=
  fun w =>
    match m w with
    | (Ok a, w') => k a w'
    | (Raise e, w') => (Raise e, w')
    | (OutOfFuel, w') => (OutOfFuel, w')
    end.

Declare Scope M_scope.
Delimit Scope M_scope with M.
Notation "x <- m ;; k" := (bind m (fun x => k))
  (at level 100, m at next level, right associativity) : M_scope.
Notation "m ;; k" := (bind m (fun _ => k))
  (at level 100, right associativity) : M_scope.
Open Scope M_scope.

Definition lift {A} (r : result A) : M A := fun w => (r, w).

Definition getattr {A} (o : option A) : M A :=
  match o with
  | Some a => ret a
  | None => lift (Raise AttributeError)
  end.

Definition append (c : Path.Command) : M unit :=
  fun w => (Ok tt, {| commandlist := commandlist w ++ [c]; errors := errors w |}).

Definition extend (cs : list Path.Command) : M unit :=
  fun w => (Ok tt, {| commandlist := commandlist w ++ cs; errors := errors w |}).

(** The world after one more diagnostic. *)
Definition logged (w : World) (d : Diagnostic) : World :=
  {| commandlist := commandlist w; errors := errors w ++ [d] |}.

(** The world once the header comment is appended. *)
Definition begun (w : World) : World :=
  {| commandlist := commandlist w ++ [Path.Build_Command "(Begin Thread Milling)" []];
     errors := errors w |}.

Definition PathLog_error (d : Diagnostic) : M unit :=
  fun w => (Ok tt, logged w d).

(** [for a in l: body(a)] *)
Fixpoint forM_ {A} (l : list A) (body : A -> M unit) : M unit :=
  match l with
  | [] => ret tt
  | a :: t => body a ;; forM_ t body
  end.

(** ** ElevatorPlacement *)

Definition elevatorRadius (obj : Obj) (center : FreeCAD.Vector) (internal : bool)
    (tool : Tool) : M R :=
  if internal then
    d <- getattr (Diameter tool) ;;
    let dy := (MinorDiameter obj - d) / 2 - 1 in
    if Rltb dy 0 then
      (if Rltb (MinorDiameter obj) d
       then PathLog_error (ToolTooBig d (MinorDiameter obj))
       else ret tt) ;;
      ret 0
    else ret dy
  else
    d <- getattr (Diameter tool) ;;
    ret ((MajorDiameter obj + d) / 2 + 1).

(** ** HelixPathSynthesizer *)

(** [int(n)]: the integer part, towards zero. *)
Definition trunc (n : R) : Z :=
  if Rle_dec 0 n then Int_part n else (- Int_part (- n))%Z.

(** [math.atan2(y, x)] on real numbers: the angle of the point [(x, y)],
    in the interval from [-PI] (excluded) to [PI]; [0] at the origin. *)
Definition atan2 (y x : R) : R :=
  if Rltb 0 x then atan (y / x)
  else if Rltb x 0 then
    (if Rleb 0 y then atan (y / x) + PI else atan (y / x) - PI)
  else if Rltb 0 y then PI / 2
  else if Rltb y 0 then - PI / 2
  else 0.

(** Helper class for dealing with different thread types
    ([_ThreadInternal] in the source). *)
Module ThreadInternal.

Record t : Type := {
  cmd : string;
  pitch : R;
  hPitch : R;
  zStart : R;
  zFinal : R
}.

Definition init (cmd : string) (zStart zFinal pitch : R) : t :=
  let pitch := if Rltb zStart zFinal then pitch else - pitch in
  {| cmd := cmd; pitch := pitch; hPitch := pitch / 2;
     zStart := zStart; zFinal := zFinal |}.

(** returns true if adding another half helix goes beyond the thread bounds *)
Definition overshoots (self : t) (z : R) : bool :=
  if Rltb (pitch self) 0 then Rltb (z + hPitch self) (zFinal self)
  else Rltb (zFinal self) (z + hPitch self).

(** returns True if this is a G3 command *)
Definition isG3 (self : t) : bool :=
  existsb (String.eqb (cmd self)) ["G3"; "G03"; "g3"; "g03"]%string.

(** move x by dx, the direction depends on the thread settings *)
Definition adjustX (self : t) (x dx : R) : R :=
  if Bool.eqb (isG3 self) (Rltb 0 (pitch self)) then x + dx else x - dx.

(** move y by dy, the direction depends on the thread settings *)
Definition adjustY (self : t) (y dy : R) : R :=
  if isG3 self then y - dy else y - dy.

(** returns True if the thread goes from the bottom up *)
Definition isUp (self : t) : bool := Rltb 0 (pitch self).

End ThreadInternal.

(** State of the [while] loop of [threadCommands]: the path so far, the
    height [z], the signed radius [r] and the half-turn index [i]. *)
Definition helix_state : Type := (list Path.Command * R * R * Z)%type.

(** The arc of one iteration of the [while] loop. *)
Definition helix_arc (thread : ThreadInternal.t) (yMin yMax z r : R) (i : Z)
    : Path.Command :=
  let y := if (Z.land i 1 =? 0)%Z then yMin else yMax in
  Path.Build_Command (ThreadInternal.cmd thread)
    [("Y", y); ("Z", z + ThreadInternal.hPitch thread); ("J", r)]%string.

Section WithIsRoughly.

(** [PathGeom.isRoughly(a, b)] is defined in another file of the
    repository; the synthesizer and the planner are stated for any such
    comparison. *)
Variable isRoughly : R -> R -> bool.

(** The [while] loop; [fuel] bounds the number of iterations and [None] is
    a loop that has not ended within it.  The sum [z + hPitch] is exact
    here; in binary64 it can round back to [z]. *)
Fixpoint helix (fuel : nat) (thread : ThreadInternal.t) (yMin yMax : R)
    (path : list Path.Command) (z r : R) (i : Z) : option helix_state :=
  if isRoughly z (ThreadInternal.zFinal thread) then Some (path, z, r, i)
  else if ThreadInternal.overshoots thread z then Some (path, z, r, i)
  else
    match fuel with
    | O => None
    | S fuel' =>
        helix fuel' thread yMin yMax (path ++ [helix_arc thread yMin yMax z r i])
          (z + ThreadInternal.hPitch thread) (- r) (i + 1)%Z
    end.

(** [threadCommands], in the order of its source: the entry (two rapid
    moves, then the lead-in arc or a plain move), the [while] loop
    ([helix]), the finish (the partial turn, when the loop did not end on
    [zFinal]) and the exit (lead-out arc, final move). *)

Definition threadCommands_entry (thread : ThreadInternal.t) (center : FreeCAD.Vector)
    (radius : R) (leadInOut : bool) (elevator : R) : list Path.Command :=
  let yMax := FreeCAD.y center + radius in
  let path :=
    [G0 [("X", FreeCAD.x center); ("Y", FreeCAD.y center + elevator)]%string;
     G0 [("Z", ThreadInternal.zStart thread)]%string] in
  if leadInOut then
    comment
      (comment path "lead-in"
         ++ [Path.Build_Command (ThreadInternal.cmd thread)
               [("Y", yMax);
                ("J", (yMax - (FreeCAD.y center + elevator)) / 2)]%string])
      "lead-in"
  else path ++ [G1 [("Y", yMax)]%string].

(** The fraction [k] of a half turn that is left: [n - int(n)] for
    [n = fabs(zFinal - zStart) / hPitch]. *)
Definition finish_fraction (thread : ThreadInternal.t) : R :=
  let n := Rabs (ThreadInternal.zFinal thread - ThreadInternal.zStart thread)
           / ThreadInternal.hPitch thread in
  n - IZR (trunc n).

(** The point [(x, y)] of the partial turn, for the signed radius [r] the
    loop ended with. *)
Definition finish_point (thread : ThreadInternal.t) (center : FreeCAD.Vector) (r : R)
    : R * R :=
  let k := finish_fraction thread in
  let dy := cos (k * PI) in
  let dx := sin (k * PI) in
  let y := ThreadInternal.adjustY thread (FreeCAD.y center) (r * dy) in
  let x := ThreadInternal.adjustX thread (FreeCAD.x center) (r * dx) in
  (x, y).

(** The path and the point [(x, y)] after the [if]/[else] that follows
    the loop; the division by [hPitch] raises at [hPitch = 0]. *)
Definition threadCommands_finish (thread : ThreadInternal.t) (center : FreeCAD.Vector)
    (radius : R) (st : helix_state) : result (list Path.Command * R * R) :=
  let '(path, z, r, i) := st in
  let yMin := FreeCAD.y center - radius in
  let yMax := FreeCAD.y center + radius in
  if isRoughly z (ThreadInternal.zFinal thread) then
    Ok (path, FreeCAD.x center, if (Z.land i 1 =? 0)%Z then yMin else yMax)
  else if Reqb (ThreadInternal.hPitch thread) 0 then Raise ZeroDivisionError
  else
    let '(x, y) := finish_point thread center r in
    Ok (comment
          (comment path "finish-thread"
             ++ [Path.Build_Command (ThreadInternal.cmd thread)
                   [("X", x); ("Y", y);
                    ("Z", ThreadInternal.zFinal thread); ("J", r)]%string])
          "finish-thread", x, y).

Definition threadCommands_exit (thread : ThreadInternal.t) (center : FreeCAD.Vector)
    (leadInOut : bool) (elevator : R) (path : list Path.Command) (x y : R)
    : list Path.Command :=
  let a := atan2 (y - FreeCAD.y center) (x - FreeCAD.x center) in
  let dx := cos a * elevator in
  let dy := sin a * elevator in
  let path :=
    if leadInOut then
      comment
        (comment path "lead-out"
           ++ [Path.Build_Command (ThreadInternal.cmd thread)
                 [("X", FreeCAD.x center + dx); ("Y", FreeCAD.y center + dy);
                  ("I", dx / 2); ("J", dy / 2)]%string])
        "lead-out"
    else path in
  path ++ [G1 [("X", FreeCAD.x center + dx); ("Y", FreeCAD.y center - dy)]%string].

(** returns the g-code to mill the given internal thread *)
Definition threadCommands (fuel : nat) (center : FreeCAD.Vector) (cmd : string)
    (zStart zFinal pitch radius : R) (leadInOut : bool) (elevator : R)
    : result (list Path.Command) :=
  let thread := ThreadInternal.init cmd zStart zFinal pitch in
  let yMin := FreeCAD.y center - radius in
  let yMax := FreeCAD.y center + radius in
  let path := threadCommands_entry thread center radius leadInOut elevator in
  match helix fuel thread yMin yMax path (ThreadInternal.zStart thread) (- radius) 0%Z with
  | None => OutOfFuel
  | Some st =>
      match threadCommands_finish thread center radius st with
      | Ok (path, x, y) =>
          Ok (threadCommands_exit thread center leadInOut elevator path x y)
      | Raise e => Raise e
      | OutOfFuel => OutOfFuel
      end
  end.

(** ** ThreadDirectionResolver *)

Definition isThreadInternal (obj : Obj) : bool :=
  if in_dec ThreadTypeName_eq_dec (ThreadType obj) ThreadTypesInternal
  then true else false.

(** the thing to remember is that Climb, for an internal thread must
    always be G3 *)
Definition threadSetupInternal (obj : Obj) : string * R * R :=
  match Direction obj with
  | DirectionClimb =>
      match ThreadOrientation obj with
      | RightHand => ("G3"%string, FinalDepth obj, StartDepth obj)
      | LeftHand => ("G3"%string, StartDepth obj, FinalDepth obj)
      end
  | DirectionConventional =>
      match ThreadOrientation obj with
      | RightHand => ("G2"%string, StartDepth obj, FinalDepth obj)
      | LeftHand => ("G2"%string, FinalDepth obj, StartDepth obj)
      end
  end.

Definition threadSetup (obj : Obj) : string * R * R :=
  let '(cmd, zbegin, zend) := threadSetupInternal obj in
  if isThreadInternal obj then (cmd, zbegin, zend)
  else
    (* need to reverse direction for external threads *)
    if String.eqb cmd "G2" then ("G3"%string, zbegin, zend)
    else ("G2"%string, zbegin, zend).

(** ** ThreadMillPlanner *)

(** [range(lo, hi)] *)
Definition range_from (lo hi : Z) : list Z :=
  map (fun k => (lo + Z.of_nat k)%Z) (seq 0 (Z.to_nat (hi - lo))).

(** The method also writes the clamped [Passes] back to [obj]; the
    updated object is returned with the radii. *)
Definition threadPassRadii (self : Op) (obj : Obj) : result (Obj * list R) :=
  match Diameter (tool self) with
  | None => Raise AttributeError
  | Some d =>
      let rMajor := (MajorDiameter obj - d) / 2 in
      let rMinor := (MinorDiameter obj - d) / 2 in
      let obj := if (Passes obj <? 1)%Z then set_Passes obj 1 else obj in
      let rPass := (rMajor - rMinor) / IZR (Passes obj) in
      let passes :=
        rMajor :: map (fun i => rMajor - rPass * IZR i) (range_from 1 (Passes obj)) in
      Ok (obj, rev passes)
  end.

(** The feed rate a command of [threadCommands] is tagged with. *)
Definition setFeed (self : Op) (c : Path.Command) : Path.Command :=
  let p := Path.Parameters c in
  let p :=
    if existsb (String.eqb (Path.Name c)) ["G0"]%string
    then Path.update "F" (vertRapid self) p else p in
  let p :=
    if existsb (String.eqb (Path.Name c)) ["G1"; "G2"; "G3"]%string
    then Path.update "F" (horizFeed self) p else p in
  Path.Build_Command (Path.Name c) p.

Definition executeThreadMill (fuel : nat) (self : Op) (obj : Obj)
    (loc : FreeCAD.Vector) (gcode : string) (zStart zFinal pitch : R) : M unit :=
  elevator <- elevatorRadius obj loc (isThreadInternal obj) (tool self) ;;
  append (G0 [("Z", ClearanceHeight obj); ("F", vertRapid self)]%string) ;;
  toolDia <- getattr (Diameter (tool self)) ;;
  toolCrest <- getattr (Crest (tool self)) ;;
  passes <- lift (threadPasses (Passes obj) threadRadii (isThreadInternal obj)
                    (MajorDiameter obj) (MinorDiameter obj) toolDia (Some toolCrest)) ;;
  forM_ passes (fun radius =>
    commands <- lift (threadCommands fuel loc gcode zStart zFinal pitch radius
                        (LeadInOut obj) elevator) ;;
    extend (map (setFeed self) commands)) ;;
  append (G0 [("Z", ClearanceHeight obj); ("F", vertRapid self)]%string).

(** Thread milling only supports thread milling cutters.  The two
    [hasattr] tests cannot raise; [tool.Label] is then read for the trace
    call, whatever the log level, and raises on a tool without it. *)
Definition isToolSupported (obj : Obj) (tool : Tool) : result bool :=
  let support :=
    match Diameter tool, Crest tool with
    | Some _, Some _ => true
    | _, _ => false
    end in
  match Label tool with
  | Some _ => Ok support
  | None => Raise AttributeError
  end.

(** [holes] are the locations found by the host, as pairs [(x, y)]. *)
Definition circularHoleExecute (fuel : nat) (self : Op) (obj : Obj)
    (holes : list (R * R)) : M unit :=
  supported <- lift (isToolSupported obj (tool self)) ;;
  if supported then
    append (Path.Build_Command "(Begin Thread Milling)" []) ;;
    let '(cmd, zStart, zFinal) := threadSetup obj in
    let pitch := Pitch obj in
    let pitch := if (TPI obj >? 0)%Z then 25.4 / IZR (TPI obj) else pitch in
    if Rleb pitch 0 then PathLog_error (BadPitch pitch)
    else
      forM_ holes (fun loc =>
        executeThreadMill fuel self obj
          {| FreeCAD.x := fst loc; FreeCAD.y := snd loc; FreeCAD.z := 0 |}
          cmd zStart zFinal pitch)
  else PathLog_error NoSuitableTool.

End WithIsRoughly.

(** Modelled from the spec: [PathGeom.isRoughly] and its default tolerance
    are not among the sources; the spec describes the test as equality
    within a floating-point tolerance, here [|a - b| <= error]. *)
Definition isRoughlyWithin (error a b : R) : bool := Rleb (Rabs (a - b)) error.

(** The rule for the X of the partial turn in the words of the spec: the
    sum when (counter-clockwise XOR positive pitch), the difference
    otherwise.  It is compared with [ThreadInternal.adjustX] below. *)
Definition finish_X_as_claimed (ccw up : bool) (cx r dx : R) : R :=
  if xorb ccw up then cx + r * dx else cx - r * dx.

(** The centre of the example passes. *)
Definition origin : FreeCAD.Vector := {| FreeCAD.x := 0; FreeCAD.y := 0; FreeCAD.z := 0 |}.

(** A move command: one the planner tags with a feed rate. *)
Definition isMove (c : Path.Command) : bool :=
  existsb (String.eqb (Path.Name c)) ["G0"; "G1"; "G2"; "G3"]%string.

(** ** The rest of the operation: class tables, enumerations, defaults *)


Definition ThreadTypeData : list (ThreadTypeName * string) :=
  [(ThreadTypeImperialExternal2A, "imperial-external-2A.csv");
   (ThreadTypeImperialExternal3A, "imperial-external-3A.csv");
   (ThreadTypeImperialInternal2B, "imperial-internal-2B.csv");
   (ThreadTypeImperialInternal3B, "imperial-internal-3B.csv");
   (ThreadTypeMetricExternal4G6G, "metric-external-4G6G.csv");
   (ThreadTypeMetricExternal6G, "metric-external-6G.csv");
   (ThreadTypeMetricInternal6H, "metric-internal-6H.csv")]%string.

Definition ThreadTypesImperial : list ThreadTypeName :=
  [ThreadTypeImperialExternal2A; ThreadTypeImperialExternal3A;
   ThreadTypeImperialInternal2B; ThreadTypeImperialInternal3B].

Definition ThreadTypesMetric : list ThreadTypeName :=
  [ThreadTypeMetricExternal4G6G; ThreadTypeMetricExternal6G;
   ThreadTypeMetricInternal6H].

Definition ThreadTypes : list ThreadTypeName := ThreadTypesInternal ++ ThreadTypesExternal.







Section WithTranslate.

(** [FreeCAD.Qt.translate], the host's translation of a text in a
    context. *)
Variable translate : string -> string -> string.



End WithTranslate.

(** The properties of the operation object that the planner does not
    read are kept beside [Obj]. *)
Record OpObj : Type := {
  props : Obj;
  ThreadFit : Z;
  ThreadName : string
}.

(** [job] is not used. *)
Definition opSetDefaultValues {Job : Type} (obj : OpObj) (job : Job) : OpObj :=
  let o := props obj in
  {| props :=
       {| ThreadOrientation := RightHand; ThreadType := ThreadTypeMetricInternal6H;
          MajorDiameter := MajorDiameter o; MinorDiameter := MinorDiameter o;
          Pitch := 1; TPI := 0; Passes := 1; Direction := DirectionClimb;
          LeadInOut := false;
          StartDepth := StartDepth o; FinalDepth := FinalDepth o;
          ClearanceHeight := ClearanceHeight o |};
     ThreadFit := 50;
     ThreadName := ThreadName obj |}.

(** ** Example objects *)

(** A metric internal thread 10/8.5, climb, right hand, one pass, from
    depth 0 down to -5. *)
Definition example_obj : Obj :=
  {| ThreadOrientation := RightHand; ThreadType := ThreadTypeMetricInternal6H;
     MajorDiameter := 10; MinorDiameter := 8.5; Pitch := 1; TPI := 0;
     Passes := 1; Direction := DirectionClimb; LeadInOut := false;
     StartDepth := 0; FinalDepth := -5; ClearanceHeight := 5 |}.

(** A thread mill of diameter 3 with a crest of 0.5. *)
Definition example_op : Op :=
  {| tool := {| Label := Some "T1"%string; Diameter := Some 3; Crest := Some 0.5 |};
     vertRapid := 100; horizFeed := 50 |}.

Definition empty_world : World := {| commandlist := []; errors := [] |}.

(** ** Predicates of the further properties *)

(** A command as the planner leaves it: a move carries its feed rate (the
    vertical rapid for G0, the horizontal feed for G1, G2, G3), anything
    else is a comment without parameters. *)
Definition tagged (self : Op) (c : Path.Command) : Prop :=
  (Path.Name c = "G0"%string ->
   Path.get "F" (Path.Parameters c) = Some (vertRapid self)) /\
  (Path.Name c = "G1"%string \/ Path.Name c = "G2"%string \/ Path.Name c = "G3"%string ->
   Path.get "F" (Path.Parameters c) = Some (horizFeed self)) /\
  (isMove c = false -> Path.Parameters c = []).

(** A command as [threadCommands] builds it for the arc command [gcode]:
    a rapid move, a linear move, an arc, or a comment without
    parameters. *)
Definition shaped (gcode : string) (c : Path.Command) : Prop :=
  Path.Name c = "G0"%string \/ Path.Name c = "G1"%string \/ Path.Name c = gcode \/
  (isMove c = false /\ Path.Parameters c = []).

(** The computation only appends to the command list and to the error
    log, whatever it comes to, and each appended command satisfies [P]. *)
Definition appends {A} (P : Path.Command -> Prop) (m : M A) : Prop :=
  forall w, exists cmds errs,
    commandlist (snd (m w)) = commandlist w ++ cmds /\
    errors (snd (m w)) = errors w ++ errs /\
    Forall P cmds.

(** * Properties *)

(** ** Boolean comparisons against the order of the reals *)

Lemma Rltb_true a b : a < b -> Rltb a b = true.
Proof. intros H; unfold Rltb; destruct (Rlt_dec a b); [reflexivity | contradiction]. Qed.

Lemma Rltb_false a b : ~ a < b -> Rltb a b = false.
Proof. intros H; unfold Rltb; destruct (Rlt_dec a b); [contradiction | reflexivity]. Qed.

Lemma Rltb_spec a b : Rltb a b = true <-> a < b.
Proof.
  unfold Rltb; destruct (Rlt_dec a b); split; intros; try assumption;
    try reflexivity; try discriminate; contradiction.
Qed.

Lemma Rleb_true a b : a <= b -> Rleb a b = true.
Proof. intros H; unfold Rleb; destruct (Rle_dec a b); [reflexivity | contradiction]. Qed.

Lemma Rleb_false a b : ~ a <= b -> Rleb a b = false.
Proof. intros H; unfold Rleb; destruct (Rle_dec a b); [contradiction | reflexivity]. Qed.

Lemma Reqb_true a b : a = b -> Reqb a b = true.
Proof. intros H; unfold Reqb; destruct (Req_dec_T a b); [reflexivity | contradiction]. Qed.

Lemma Reqb_false a b : a <> b -> Reqb a b = false.
Proof. intros H; unfold Reqb; destruct (Req_dec_T a b); [contradiction | reflexivity]. Qed.

(** Decides every comparison of two closed reals that occurs in the goal. *)
Ltac decide_R :=
  repeat match goal with
  | |- context [Rltb ?a ?b] =>
      first [ rewrite (Rltb_true a b) by lra | rewrite (Rltb_false a b) by lra ]
  | |- context [Rleb ?a ?b] =>
      first [ rewrite (Rleb_true a b) by lra | rewrite (Rleb_false a b) by lra ]
  | |- context [Reqb ?a ?b] =>
      first [ rewrite (Reqb_true a b) by lra | rewrite (Reqb_false a b) by lra ]
  end.

Lemma Rabs_gap (a b e : R) : e < a - b \/ e < b - a -> ~ Rabs (a - b) <= e.
Proof.
  intros H Habs. unfold Rabs in Habs. destruct (Rcase_abs (a - b)); lra.
Qed.

Lemma Rabs_within (a b e : R) : - e <= a - b <= e -> Rabs (a - b) <= e.
Proof.
  intros H. unfold Rabs. destruct (Rcase_abs (a - b)); lra.
Qed.

(** ** ThreadGeometry: the envelope radii *)

Lemma threadRadii_internal majorDia minorDia toolDia c :
  threadRadii true majorDia minorDia toolDia (Some c) =
  ((minorDia - toolDia) / 2,
   majorDia / 2 + (majorDia - minorDia) / 10 - c * SQRT_3_DIVIDED_BY_2 - toolDia / 2).
Proof. unfold threadRadii. f_equal. lra. Qed.

Lemma threadRadii_external majorDia minorDia toolDia c :
  threadRadii false majorDia minorDia toolDia (Some c) =
  ((majorDia + toolDia) / 2,
   minorDia / 2 - (majorDia - minorDia) / 5 - c * SQRT_3_DIVIDED_BY_2 + toolDia / 2).
Proof. unfold threadRadii. f_equal. lra. Qed.

(** A missing crest ([None]) counts as a crest of zero. *)
Lemma threadRadii_None internal majorDia minorDia toolDia :
  threadRadii internal majorDia minorDia toolDia None =
  threadRadii internal majorDia minorDia toolDia (Some 0).
Proof. reflexivity. Qed.

(** C9, as the code computes it: for majorDia=10, minorDia=8.5, toolDia=3,
    toolCrest=0.5, internal, the intermediate quantities are H = 1.2,
    outerTip = 5.15 and toolTip = 5.15 - 0.5 * 0.8660254037844386 =
    4.7169872981077807, and [threadRadii] returns exactly
    (2.75, 3.2169872981077807): each component is within 1e-6 of
    (2.75, 3.2169873). *)
Theorem threadRadii_round_trip :
  let H := ((10 - 8.5) / 2) * 1.6 in
  let outerTip := 10 / 2 + H / 8 in
  let toolTip := outerTip - 0.5 * SQRT_3_DIVIDED_BY_2 in
  H = 1.2 /\ outerTip = 5.15 /\ toolTip = 4.7169872981077807 /\
  threadRadii true 10 8.5 3 (Some 0.5) = ((8.5 - 3) / 2, toolTip - 3 / 2) /\
  threadRadii true 10 8.5 3 (Some 0.5) = (2.75, 3.2169872981077807) /\
  Rabs (fst (threadRadii true 10 8.5 3 (Some 0.5)) - 2.75) <= 1e-6 /\
  Rabs (snd (threadRadii true 10 8.5 3 (Some 0.5)) - 3.2169873) <= 1e-6.
Proof.
  cbv zeta. rewrite threadRadii_internal. unfold SQRT_3_DIVIDED_BY_2. simpl fst; simpl snd.
  repeat split; try lra; try (f_equal; lra); apply Rabs_within; lra.
Qed.

(** C9, as stated, fails: the second component that [threadRadii] returns
    is not within 1e-6 of 3.2170127 (it is 2.54e-5 below), and the tool tip
    is not within 1e-6 of 4.7170127. *)
Lemma threadRadii_round_trip_not_as_stated :
  ~ Rabs (snd (threadRadii true 10 8.5 3 (Some 0.5)) - 3.2170127) <= 1e-6 /\
  ~ Rabs ((10 / 2 + ((10 - 8.5) / 2) * 1.6 / 8 - 0.5 * SQRT_3_DIVIDED_BY_2)
          - 4.7170127) <= 1e-6.
Proof.
  rewrite threadRadii_internal. unfold SQRT_3_DIVIDED_BY_2. simpl snd.
  split; apply Rabs_gap; lra.
Qed.

(** C3, as amended: for an internal thread, with majorDia > minorDia > 0,
    toolCrest >= 0 and toolDia < majorDia - minorDia, the first radius
    that [threadRadii] returns is strictly below the second exactly when
    toolCrest * SQRT_3_DIVIDED_BY_2 < 0.6 * (majorDia - minorDia).
    Nothing is stated about the order of the external pair. *)
Theorem threadRadii_internal_order (majorDia minorDia toolDia toolCrest : R) :
  minorDia < majorDia -> 0 < minorDia -> 0 <= toolCrest ->
  toolDia < majorDia - minorDia ->
  (fst (threadRadii true majorDia minorDia toolDia (Some toolCrest))
     < snd (threadRadii true majorDia minorDia toolDia (Some toolCrest))
   <-> toolCrest * SQRT_3_DIVIDED_BY_2 < 0.6 * (majorDia - minorDia)).
Proof.
  intros Hd Hm Hc Ht. rewrite threadRadii_internal. simpl fst; simpl snd.
  split; intros; lra.
Qed.

Lemma threadRadii_internal_order_witness :
  (8.5 < 10 /\ 0 < 8.5 /\ 0 <= 0.5 /\ 1 < 10 - 8.5) /\
  0.5 * SQRT_3_DIVIDED_BY_2 < 0.6 * (10 - 8.5) /\
  fst (threadRadii true 10 8.5 1 (Some 0.5)) < snd (threadRadii true 10 8.5 1 (Some 0.5)).
Proof.
  assert (H1 : 8.5 < 10) by lra.
  assert (H2 : 0 < 8.5) by lra.
  assert (H3 : 0 <= 0.5) by lra.
  assert (H4 : 1 < 10 - 8.5) by lra.
  assert (Hb : 0.5 * SQRT_3_DIVIDED_BY_2 < 0.6 * (10 - 8.5))
    by (unfold SQRT_3_DIVIDED_BY_2; lra).
  split; [repeat split; assumption | split; [exact Hb|]].
  exact (proj2 (threadRadii_internal_order 10 8.5 1 0.5 H1 H2 H3 H4) Hb).
Defined.

(** C3, as stated, fails: majorDia=10, minorDia=8.5, toolDia=1, toolCrest=2
    meets every condition of the claim (toolDia < majorDia - minorDia
    included), and for the internal thread [threadRadii] returns
    (3.75, 2.9179491924311228), first component above the second: the
    crest is wider than the bound 0.6 * (majorDia - minorDia) allows. *)
Lemma threadRadii_wide_crest_not_ordered :
  (10 > 8.5 /\ 8.5 > 0 /\ 2 >= 0 /\ 1 < 10 - 8.5) /\
  threadRadii true 10 8.5 1 (Some 2) = (3.75, 2.9179491924311228) /\
  ~ fst (threadRadii true 10 8.5 1 (Some 2)) < snd (threadRadii true 10 8.5 1 (Some 2)).
Proof.
  rewrite threadRadii_internal. unfold SQRT_3_DIVIDED_BY_2. simpl fst; simpl snd.
  repeat split; try lra. f_equal; lra.
Qed.

(** What the code returns for an external thread: the larger radius
    first, for instance (5.5, 4.45) at majorDia=10, minorDia=8.5,
    toolDia=1, toolCrest=0.  This is the order that the external branch of
    [threadPasses] does not reckon with (see C1). *)
Lemma threadRadii_external_larger_first (majorDia minorDia toolDia toolCrest : R) :
  minorDia < majorDia -> 0 <= toolCrest ->
  snd (threadRadii false majorDia minorDia toolDia (Some toolCrest))
    < fst (threadRadii false majorDia minorDia toolDia (Some toolCrest)).
Proof.
  intros Hd Hc. rewrite threadRadii_external. simpl fst; simpl snd.
  assert (Hs : 0 <= toolCrest * SQRT_3_DIVIDED_BY_2)
    by (apply Rmult_le_pos; [assumption | unfold SQRT_3_DIVIDED_BY_2; lra]).
  lra.
Qed.

Lemma threadRadii_external_example :
  threadRadii false 10 8.5 1 (Some 0) = (5.5, 4.45).
Proof.
  rewrite threadRadii_external. unfold SQRT_3_DIVIDED_BY_2. f_equal; lra.
Qed.

(** ** ThreadGeometry: the examples on binary64 floats *)

(** The example of C9 in Python's arithmetic: the result is the pair of
    floats (2.75, 3.2169872981077807); its second component is within
    1e-6 of 3.2169873 and not within 1e-6 of 3.2170127. *)
Lemma threadRadii_binary64_round_trip :
  threadRadii_binary64 true 10 8.5 3 (Some 0.5%float)
    = (2.75, 3.2169872981077807)%float /\
  (let r := snd (threadRadii_binary64 true 10 8.5 3 (Some 0.5%float)) in
   PrimFloat.leb (PrimFloat.abs (r - 3.2169873)) 1e-6 = true /\
   PrimFloat.leb (PrimFloat.abs (r - 3.2170127)) 1e-6 = false)%float.
Proof. vm_compute. repeat split. Qed.

(** The failing input of C1 in Python's arithmetic: the external envelope
    is (6.5, 5.0169872981077805) and the single pass is at 6.5. *)
Lemma threadPasses_binary64_external :
  threadRadii_binary64 false 10 8.5 3 (Some 0.5%float)
    = (6.5, 5.0169872981077805)%float /\
  threadPasses_binary64 1 threadRadii_binary64 false 10 8.5 3 (Some 0.5%float)
    = Ok [6.5%float] /\
  threadPasses_binary64 3 threadRadii_binary64 false 10 8.5 3 (Some 0.5%float)
    = Ok [5.511324865405187; 6.005662432702594; 6.5]%float.
Proof. vm_compute. repeat split. Qed.

(** ** ThreadGeometry: the pass radii *)

Lemma range_length (count : Z) : length (range count) = Z.to_nat count.
Proof. unfold range. rewrite length_map, length_seq. reflexivity. Qed.

Lemma range_last (n : nat) :
  range (Z.of_nat (S n)) = range (Z.of_nat n) ++ [Z.of_nat n].
Proof.
  unfold range. rewrite !Nat2Z.id, seq_S, map_app. reflexivity.
Qed.

(** For a count other than zero the passes are the image of
    [range(count)]; the branch is chosen by [internal]. *)
Lemma threadPasses_Ok (count : Z) (radii : radii_fn) internal majorDia minorDia toolDia toolCrest :
  count <> 0%Z ->
  threadPasses count radii internal majorDia minorDia toolDia toolCrest =
  let minor := fst (radii internal majorDia minorDia toolDia toolCrest) in
  let major := snd (radii internal majorDia minorDia toolDia toolCrest) in
  let dr := (major - minor) / IZR count in
  Ok (map (fun i => if internal then minor + dr * IZR (i + 1)
                    else major - dr * IZR (i + 1)) (range count)).
Proof.
  intros Hc. unfold threadPasses.
  destruct (radii internal majorDia minorDia toolDia toolCrest) as [minor major].
  apply Z.eqb_neq in Hc. rewrite Hc. cbv zeta. simpl fst; simpl snd.
  destruct internal; reflexivity.
Qed.

Lemma threadPasses_zero (radii : radii_fn) internal majorDia minorDia toolDia toolCrest :
  threadPasses 0 radii internal majorDia minorDia toolDia toolCrest = Raise ZeroDivisionError.
Proof.
  unfold threadPasses.
  destruct (radii internal majorDia minorDia toolDia toolCrest); reflexivity.
Qed.

(** A negative count is no error: [range] is empty and no pass is made. *)
Lemma threadPasses_negative (count : Z) (radii : radii_fn) internal majorDia minorDia toolDia toolCrest :
  (count < 0)%Z ->
  threadPasses count radii internal majorDia minorDia toolDia toolCrest = Ok [].
Proof.
  intros Hc. rewrite threadPasses_Ok by lia. cbv zeta. unfold range.
  replace (Z.to_nat count) with O by lia. reflexivity.
Qed.

(** The list has [count] elements, and its last one is the second radius
    of the envelope for an internal thread, the first for an external one. *)
Lemma threadPasses_length_last (count : Z) (radii : radii_fn) internal majorDia minorDia toolDia toolCrest :
  (1 <= count)%Z ->
  exists l,
    threadPasses count radii internal majorDia minorDia toolDia toolCrest = Ok l /\
    length l = Z.to_nat count /\
    last l 0 = if internal then snd (radii internal majorDia minorDia toolDia toolCrest)
               else fst (radii internal majorDia minorDia toolDia toolCrest).
Proof.
  intros Hc. rewrite threadPasses_Ok by lia. cbv zeta.
  eexists; split; [reflexivity | split].
  - rewrite length_map. apply range_length.
  - destruct (Z.to_nat count) as [|n] eqn:Hn; [lia|].
    assert (Hr : range count = range (Z.of_nat n) ++ [Z.of_nat n])
      by (rewrite <- range_last; f_equal; lia).
    rewrite Hr, map_app. simpl map. rewrite last_last.
    replace (IZR (Z.of_nat n + 1)) with (IZR count) by (f_equal; lia).
    assert (Hnz : IZR count <> 0) by (apply not_0_IZR; lia).
    destruct internal; field; assumption.
Qed.

Lemma map_step_increasing (f : Z -> R) :
  (forall i : Z, f i < f (i + 1)%Z) ->
  forall n s, strictly_increasing (map f (map Z.of_nat (seq s n))).
Proof.
  intros Hf. induction n as [|n IH]; intros s; [exact I|].
  specialize (IH (S s)). destruct n as [|n]; [exact I|].
  cbn [seq map strictly_increasing strictly_decreasing] in *. split; [|exact IH].
  replace (Z.of_nat (S s)) with (Z.of_nat s + 1)%Z by lia. apply Hf.
Qed.

Lemma map_step_decreasing (f : Z -> R) :
  (forall i : Z, f (i + 1)%Z < f i) ->
  forall n s, strictly_decreasing (map f (map Z.of_nat (seq s n))).
Proof.
  intros Hf. induction n as [|n IH]; intros s; [exact I|].
  specialize (IH (S s)). destruct n as [|n]; [exact I|].
  cbn [seq map strictly_increasing strictly_decreasing] in *. split; [|exact IH].
  replace (Z.of_nat (S s)) with (Z.of_nat s + 1)%Z by lia. apply Hf.
Qed.

(** The direction of the list follows the sign of the step [dr]: with
    the first radius below the second, an internal list grows and an
    external list shrinks; with the first above the second it is the
    other way round. *)
Lemma threadPasses_direction (count : Z) (radii : radii_fn) internal majorDia minorDia toolDia toolCrest :
  (1 <= count)%Z ->
  exists l,
    threadPasses count radii internal majorDia minorDia toolDia toolCrest = Ok l /\
    let minor := fst (radii internal majorDia minorDia toolDia toolCrest) in
    let major := snd (radii internal majorDia minorDia toolDia toolCrest) in
    (minor < major -> if internal then strictly_increasing l else strictly_decreasing l) /\
    (major < minor -> if internal then strictly_decreasing l else strictly_increasing l).
Proof.
  intros Hc. rewrite threadPasses_Ok by lia. cbv zeta.
  eexists; split; [reflexivity|].
  set (minor := fst _). set (major := snd _).
  assert (Hpos : 0 < IZR count) by (apply IZR_lt; lia).
  assert (Hinv : 0 < / IZR count) by (apply Rinv_0_lt_compat; assumption).
  unfold range.
  split; intros Hlt.
  - assert (Hdr : 0 < (major - minor) / IZR count)
      by (unfold Rdiv; apply Rmult_lt_0_compat; lra).
    destruct internal;
      [apply map_step_increasing | apply map_step_decreasing];
      intros i; rewrite (plus_IZR (i + 1) 1); lra.
  - assert (Hdr : 0 < (minor - major) / IZR count)
      by (unfold Rdiv; apply Rmult_lt_0_compat; lra).
    assert (Heq : (major - minor) / IZR count = - ((minor - major) / IZR count))
      by (field; lra).
    rewrite Heq.
    destruct internal;
      [apply map_step_decreasing | apply map_step_increasing];
      intros i; rewrite (plus_IZR (i + 1) 1); lra.
Qed.

(** For an internal thread the last pass is at the final radius of the
    envelope, [toolTip - toolDia/2], whatever the parameters. *)
Lemma threadPasses_internal_last (count : Z) majorDia minorDia toolDia toolCrest :
  (1 <= count)%Z ->
  exists l,
    threadPasses count threadRadii true majorDia minorDia toolDia toolCrest = Ok l /\
    last l 0 = snd (threadRadii true majorDia minorDia toolDia toolCrest).
Proof.
  intros Hc.
  destruct (threadPasses_length_last count threadRadii true majorDia minorDia
              toolDia toolCrest Hc) as (l & Hl & _ & Hlast).
  exists l. split; assumption.
Qed.

(** For an external thread the last pass is at the first radius of the
    envelope, [(majorDia + toolDia)/2], where the tool only touches the
    major diameter; the final radius [toolTip + toolDia/2] lies below it by
    more than 0.7 * (majorDia - minorDia). *)
Lemma threadPasses_external_last (count : Z) majorDia minorDia toolDia toolCrest :
  (1 <= count)%Z -> minorDia < majorDia -> 0 <= toolCrest ->
  exists l,
    threadPasses count threadRadii false majorDia minorDia toolDia (Some toolCrest) = Ok l /\
    last l 0 = (majorDia + toolDia) / 2 /\
    snd (threadRadii false majorDia minorDia toolDia (Some toolCrest))
      + 0.7 * (majorDia - minorDia) <= last l 0.
Proof.
  intros Hc Hd Hcrest.
  destruct (threadPasses_length_last count threadRadii false majorDia minorDia
              toolDia (Some toolCrest) Hc) as (l & Hl & _ & Hlast).
  exists l. split; [assumption|]. rewrite Hlast, threadRadii_external. simpl fst; simpl snd.
  assert (Hs : 0 <= toolCrest * SQRT_3_DIVIDED_BY_2)
    by (apply Rmult_le_pos; [assumption | unfold SQRT_3_DIVIDED_BY_2; lra]).
  split; lra.
Qed.

(** C1, at the failing input count=1, internal=False, majorDia=10,
    minorDia=8.5, toolDia=3, toolCrest=0.5: the envelope is
    (6.5, 5.0169872981077807), the final-cut radius is the second
    component, and the only (hence last) pass that [threadPasses] returns
    is 6.5, which is 1.483 away from it. *)
Theorem threadPasses_external_last_is_start_radius :
  threadRadii false 10 8.5 3 (Some 0.5) = (6.5, 5.0169872981077807) /\
  threadPasses 1 threadRadii false 10 8.5 3 (Some 0.5) = Ok [6.5] /\
  ~ Rabs (6.5 - snd (threadRadii false 10 8.5 3 (Some 0.5))) <= 1e-9.
Proof.
  rewrite threadPasses_Ok by lia. rewrite threadRadii_external.
  unfold SQRT_3_DIVIDED_BY_2. cbv zeta. simpl fst; simpl snd.
  repeat split.
  - f_equal; lra.
  - unfold range. simpl. do 2 f_equal. lra.
  - apply Rabs_gap. lra.
Qed.

(** C2, as amended: for every count >= 1 [threadPasses] returns a list of
    exactly [count] radii, for internal and external threads alike; and
    for an internal thread whose crest satisfies
    toolCrest * SQRT_3_DIVIDED_BY_2 < 0.6 * (majorDia - minorDia) the list
    is strictly increasing. *)
Theorem threadPasses_length_internal_increasing (count : Z) (internal : bool)
    (majorDia minorDia toolDia toolCrest : R) :
  (1 <= count)%Z ->
  exists l,
    threadPasses count threadRadii internal majorDia minorDia toolDia (Some toolCrest) = Ok l /\
    length l = Z.to_nat count /\
    (internal = true ->
     toolCrest * SQRT_3_DIVIDED_BY_2 < 0.6 * (majorDia - minorDia) ->
     strictly_increasing l).
Proof.
  intros Hc.
  destruct (threadPasses_length_last count threadRadii internal majorDia minorDia
              toolDia (Some toolCrest) Hc) as (l & Hl & Hlen & _).
  destruct (threadPasses_direction count threadRadii internal majorDia minorDia
              toolDia (Some toolCrest) Hc) as (l' & Hl' & Hup & _).
  rewrite Hl in Hl'. injection Hl' as <-.
  exists l. repeat split; try assumption.
  intros -> Hcrest. apply Hup. rewrite threadRadii_internal. simpl fst; simpl snd. lra.
Qed.

Lemma threadPasses_length_internal_increasing_witness :
  (1 <= 3)%Z /\ 0.5 * SQRT_3_DIVIDED_BY_2 < 0.6 * (10 - 8.5) /\
  exists l,
    threadPasses 3 threadRadii true 10 8.5 3 (Some 0.5) = Ok l /\
    length l = 3%nat /\ strictly_increasing l.
Proof.
  assert (Hc : (1 <= 3)%Z) by lia.
  assert (Hcrest : 0.5 * SQRT_3_DIVIDED_BY_2 < 0.6 * (10 - 8.5))
    by (unfold SQRT_3_DIVIDED_BY_2; lra).
  split; [exact Hc | split; [exact Hcrest|]].
  destruct (threadPasses_length_internal_increasing 3 true 10 8.5 3 0.5 Hc)
    as (l & Hl & Hlen & Hinc).
  exists l. split; [exact Hl | split; [exact Hlen | exact (Hinc eq_refl Hcrest)]].
Defined.

(** C2, as stated, fails at parameter sets the claim calls valid.  With
    internal=True and toolCrest=2 the two passes decrease; with
    internal=False and toolCrest=0.5 the two passes increase. *)
Lemma threadPasses_not_monotone_as_stated :
  (10 > 8.5 /\ 8.5 > 0 /\ 3 > 0 /\ 2 >= 0 /\ 0.5 >= 0) /\
  (exists l, threadPasses 2 threadRadii true 10 8.5 3 (Some 2) = Ok l /\
             length l = 2%nat /\ ~ strictly_increasing l) /\
  (exists l, threadPasses 2 threadRadii false 10 8.5 3 (Some 0.5) = Ok l /\
             length l = 2%nat /\ ~ strictly_decreasing l).
Proof.
  split; [lra|].
  rewrite !threadPasses_Ok by lia. rewrite threadRadii_internal, threadRadii_external.
  unfold SQRT_3_DIVIDED_BY_2, range. cbv zeta. simpl.
  split; eexists; (split; [reflexivity | split; [reflexivity|]]); intros [H _]; lra.
Qed.

(** ** ElevatorPlacement *)

Lemma elevatorRadius_internal_run obj center tool d w :
  Diameter tool = Some d ->
  elevatorRadius obj center true tool w =
  let dy := (MinorDiameter obj - d) / 2 - 1 in
  if Rltb dy 0 then
    (Ok 0, if Rltb (MinorDiameter obj) d
           then logged w (ToolTooBig d (MinorDiameter obj)) else w)
  else (Ok dy, w).
Proof.
  intros Hd. unfold elevatorRadius, getattr, bind, ret. rewrite Hd. cbv zeta.
  destruct (Rltb _ 0); [|reflexivity].
  destruct (Rltb (MinorDiameter obj) d); reflexivity.
Qed.

Lemma elevatorRadius_external_run obj center tool d w :
  Diameter tool = Some d ->
  elevatorRadius obj center false tool w = (Ok ((MajorDiameter obj + d) / 2 + 1), w).
Proof.
  intros Hd. unfold elevatorRadius, getattr, bind, ret. rewrite Hd. reflexivity.
Qed.

(** C6: for an internal thread and a tool of diameter [d], the elevator is
    (MinorDiameter - d)/2 - 1 when that is not negative, with nothing
    logged; when it is negative the elevator is exactly 0; in both cases
    the call returns normally, the tool-too-big diagnostic is logged when
    MinorDiameter < d and the world is left as it was when not.  For an
    external thread the elevator is (MajorDiameter + d)/2 + 1. *)
Theorem elevatorRadius_offset obj center tool d w :
  Diameter tool = Some d ->
  let dy := (MinorDiameter obj - d) / 2 - 1 in
  (0 <= dy -> elevatorRadius obj center true tool w = (Ok dy, w)) /\
  (dy < 0 -> fst (elevatorRadius obj center true tool w) = Ok 0) /\
  (MinorDiameter obj < d ->
   snd (elevatorRadius obj center true tool w) = logged w (ToolTooBig d (MinorDiameter obj))) /\
  (~ MinorDiameter obj < d -> snd (elevatorRadius obj center true tool w) = w) /\
  fst (elevatorRadius obj center false tool w) = Ok ((MajorDiameter obj + d) / 2 + 1).
Proof.
  intros Hd dy.
  rewrite (elevatorRadius_internal_run _ _ _ d), (elevatorRadius_external_run _ _ _ d)
    by assumption.
  cbv zeta. fold dy. repeat split.
  - intros H. rewrite Rltb_false by lra. reflexivity.
  - intros H. rewrite Rltb_true by lra. reflexivity.
  - intros H. rewrite (Rltb_true dy 0) by (unfold dy; lra).
    rewrite Rltb_true by assumption. reflexivity.
  - intros H. destruct (Rltb dy 0); [|reflexivity].
    rewrite Rltb_false by assumption. reflexivity.
Qed.

(** The example of the claim: minor diameter 5, major diameter 10, tool
    diameter 8, internal: the elevator is 0 and the diagnostic is logged. *)
Lemma elevatorRadius_offset_witness :
  let obj := {| ThreadOrientation := RightHand; ThreadType := ThreadTypeMetricInternal6H;
                MajorDiameter := 10; MinorDiameter := 5; Pitch := 1; TPI := 0;
                Passes := 1; Direction := DirectionClimb; LeadInOut := false;
                StartDepth := 0; FinalDepth := -5; ClearanceHeight := 5 |} in
  let tool := {| Label := Some "T1"%string; Diameter := Some 8; Crest := Some 0 |} in
  let center := {| FreeCAD.x := 0; FreeCAD.y := 0; FreeCAD.z := 0 |} in
  let w := {| commandlist := []; errors := [] |} in
  Diameter tool = Some 8 /\
  fst (elevatorRadius obj center true tool w) = Ok 0 /\
  snd (elevatorRadius obj center true tool w) =
    {| commandlist := []; errors := [ToolTooBig 8 5] |}.
Proof.
  intros obj tool center w.
  destruct (elevatorRadius_offset obj center tool 8 w eq_refl) as (_ & Hneg & Hlog & _).
  split; [reflexivity | split].
  - apply Hneg. simpl. lra.
  - apply Hlog. simpl. lra.
Defined.

(** C10: for an external thread and a tool of diameter [d], whatever the
    sizes of thread and tool, the call returns (MajorDiameter + d)/2 + 1
    and leaves the world as it was: nothing is logged, nothing is clamped.
    With MajorDiameter > 0 and d > 0 the value is strictly positive. *)
Theorem elevatorRadius_external obj center tool d w :
  Diameter tool = Some d ->
  0 < MajorDiameter obj -> 0 < d ->
  elevatorRadius obj center false tool w = (Ok ((MajorDiameter obj + d) / 2 + 1), w) /\
  0 < (MajorDiameter obj + d) / 2 + 1.
Proof.
  intros Hd HM Hpos. rewrite (elevatorRadius_external_run _ _ _ d) by assumption.
  split; [reflexivity | lra].
Qed.

(** A tool of diameter 20 on an external thread of major diameter 10. *)
Lemma elevatorRadius_external_witness :
  let obj := {| ThreadOrientation := RightHand; ThreadType := ThreadTypeMetricExternal6G;
                MajorDiameter := 10; MinorDiameter := 8.5; Pitch := 1; TPI := 0;
                Passes := 1; Direction := DirectionClimb; LeadInOut := false;
                StartDepth := 0; FinalDepth := -5; ClearanceHeight := 5 |} in
  let tool := {| Label := Some "T1"%string; Diameter := Some 20; Crest := Some 0 |} in
  let center := {| FreeCAD.x := 0; FreeCAD.y := 0; FreeCAD.z := 0 |} in
  let w := {| commandlist := []; errors := [] |} in
  (Diameter tool = Some 20 /\ 0 < MajorDiameter obj /\ 0 < 20) /\
  elevatorRadius obj center false tool w = (Ok ((10 + 20) / 2 + 1), w) /\
  0 < (10 + 20) / 2 + 1.
Proof.
  intros obj tool center w.
  assert (HM : 0 < MajorDiameter obj) by (simpl; lra).
  assert (Hd : 0 < 20) by lra.
  split; [split; [reflexivity | split; assumption]|].
  exact (elevatorRadius_external obj center tool 20 w eq_refl HM Hd).
Defined.

(** ** ThreadDirectionResolver *)

(** Every thread type is in exactly one of the two lists. *)
Lemma isThreadInternal_spec obj :
  (isThreadInternal obj = true <-> In (ThreadType obj) ThreadTypesInternal) /\
  (isThreadInternal obj = false <-> In (ThreadType obj) ThreadTypesExternal).
Proof.
  unfold isThreadInternal.
  destruct (in_dec ThreadTypeName_eq_dec (ThreadType obj) ThreadTypesInternal) as [Hin | Hout].
  - repeat split; intros; try assumption; try reflexivity; try discriminate.
    exfalso. destruct (ThreadType obj); simpl in *; intuition discriminate.
  - repeat split; intros; try reflexivity; try discriminate; try contradiction.
    destruct (ThreadType obj); simpl in *; intuition discriminate.
Qed.

Lemma threadSetup_internal obj :
  isThreadInternal obj = true -> threadSetup obj = threadSetupInternal obj.
Proof.
  intros H. unfold threadSetup. rewrite H.
  destruct (threadSetupInternal obj) as [[c zb] ze]. reflexivity.
Qed.

(** G3 is the counter-clockwise arc, G2 the clockwise one. *)
Lemma isG3_G3_G2 zStart zFinal pitch :
  ThreadInternal.isG3 (ThreadInternal.init "G3" zStart zFinal pitch) = true /\
  ThreadInternal.isG3 (ThreadInternal.init "G2" zStart zFinal pitch) = false.
Proof. split; reflexivity. Qed.

(** C4: the direction table.  With G3 the counter-clockwise and G2 the
    clockwise arc, s = StartDepth and f = FinalDepth, an internal thread
    gets (G3, f, s) for Climb+RightHand, (G3, s, f) for Climb+LeftHand,
    (G2, s, f) for Conventional+RightHand and (G2, f, s) for
    Conventional+LeftHand; an external thread gets the same depths in the
    same order with the arc command of the internal result inverted. *)
Theorem threadSetup_table (obj : Obj) :
  let s := StartDepth obj in
  let f := FinalDepth obj in
  (isThreadInternal obj = true ->
   (Direction obj = DirectionClimb -> ThreadOrientation obj = RightHand ->
    threadSetup obj = ("G3"%string, f, s)) /\
   (Direction obj = DirectionClimb -> ThreadOrientation obj = LeftHand ->
    threadSetup obj = ("G3"%string, s, f)) /\
   (Direction obj = DirectionConventional -> ThreadOrientation obj = RightHand ->
    threadSetup obj = ("G2"%string, s, f)) /\
   (Direction obj = DirectionConventional -> ThreadOrientation obj = LeftHand ->
    threadSetup obj = ("G2"%string, f, s))) /\
  (isThreadInternal obj = false ->
   (forall zb ze, threadSetupInternal obj = ("G2"%string, zb, ze) ->
                  threadSetup obj = ("G3"%string, zb, ze)) /\
   (forall zb ze, threadSetupInternal obj = ("G3"%string, zb, ze) ->
                  threadSetup obj = ("G2"%string, zb, ze)) /\
   (Direction obj = DirectionClimb -> ThreadOrientation obj = RightHand ->
    threadSetup obj = ("G2"%string, f, s)) /\
   (Direction obj = DirectionClimb -> ThreadOrientation obj = LeftHand ->
    threadSetup obj = ("G2"%string, s, f)) /\
   (Direction obj = DirectionConventional -> ThreadOrientation obj = RightHand ->
    threadSetup obj = ("G3"%string, s, f)) /\
   (Direction obj = DirectionConventional -> ThreadOrientation obj = LeftHand ->
    threadSetup obj = ("G3"%string, f, s))).
Proof.
  intros s f. subst s f. unfold threadSetup, threadSetupInternal.
  destruct (Direction obj), (ThreadOrientation obj);
    (split; intros Hint; rewrite Hint; repeat split; intros;
     try discriminate; try reflexivity;
     match goal with H : (_, _, _) = (_, _, _) |- _ => inversion H; reflexivity end).
Qed.

(** One row of each half of the table, at concrete objects. *)
Lemma threadSetup_table_witness :
  let internal := {| ThreadOrientation := RightHand; ThreadType := ThreadTypeMetricInternal6H;
                     MajorDiameter := 10; MinorDiameter := 8.5; Pitch := 1; TPI := 0;
                     Passes := 1; Direction := DirectionClimb; LeadInOut := false;
                     StartDepth := 0; FinalDepth := -5; ClearanceHeight := 5 |} in
  let external := {| ThreadOrientation := LeftHand; ThreadType := ThreadTypeMetricExternal6G;
                     MajorDiameter := 10; MinorDiameter := 8.5; Pitch := 1; TPI := 0;
                     Passes := 1; Direction := DirectionConventional; LeadInOut := false;
                     StartDepth := 0; FinalDepth := -5; ClearanceHeight := 5 |} in
  threadSetup internal = ("G3"%string, -5, 0) /\
  threadSetup external = ("G3"%string, -5, 0).
Proof.
  intros internal external. split.
  - exact (proj1 (proj1 (threadSetup_table internal) eq_refl) eq_refl eq_refl).
  - destruct (proj2 (threadSetup_table external) eq_refl) as (_ & _ & _ & _ & _ & H).
    exact (H eq_refl eq_refl).
Defined.

(** ** ThreadMillPlanner: the pass count *)

(** With a tool that has a diameter the elevator computation returns
    normally and leaves the command list alone. *)
Lemma elevatorRadius_returns obj center internal tool d w :
  Diameter tool = Some d ->
  exists e w', elevatorRadius obj center internal tool w = (Ok e, w') /\
               commandlist w' = commandlist w.
Proof.
  intros Hd. destruct internal.
  - rewrite (elevatorRadius_internal_run _ _ _ d) by assumption. cbv zeta.
    destruct (Rltb _ 0); [|eauto].
    destruct (Rltb (MinorDiameter obj) d); eauto.
  - rewrite (elevatorRadius_external_run _ _ _ d) by assumption. eauto.
Qed.

(** [executeThreadMill] hands [obj.Passes] to [threadPasses] as it is: at
    [Passes = 0] the division raises, after the first retract was
    appended. *)
Lemma executeThreadMill_zero_passes isRoughly fuel self obj loc gcode zStart zFinal pitch w d c :
  Diameter (tool self) = Some d -> Crest (tool self) = Some c ->
  Passes obj = 0%Z ->
  exists w',
    executeThreadMill isRoughly fuel self obj loc gcode zStart zFinal pitch w
      = (Raise ZeroDivisionError, w') /\
    commandlist w' =
      commandlist w ++ [G0 [("Z", ClearanceHeight obj); ("F", vertRapid self)]%string] /\
    errors w' = errors (snd (elevatorRadius obj loc (isThreadInternal obj) (tool self) w)).
Proof.
  intros Hd Hc Hp. unfold executeThreadMill.
  destruct (elevatorRadius_returns obj loc (isThreadInternal obj) (tool self) d w Hd)
    as (e & w' & He & Hw').
  unfold bind at 1. rewrite He.
  unfold bind, append, getattr, ret, lift. rewrite Hd, Hc, Hp, threadPasses_zero. simpl.
  eexists. split; [reflexivity|]. simpl. rewrite Hw'. split; reflexivity.
Qed.

(** At a negative [Passes] no pass is made at all: the two retracts are
    the only commands. *)
Lemma executeThreadMill_negative_passes isRoughly fuel self obj loc gcode zStart zFinal pitch w d c :
  Diameter (tool self) = Some d -> Crest (tool self) = Some c ->
  (Passes obj < 0)%Z ->
  exists w',
    executeThreadMill isRoughly fuel self obj loc gcode zStart zFinal pitch w = (Ok tt, w') /\
    commandlist w' =
      commandlist w ++ [G0 [("Z", ClearanceHeight obj); ("F", vertRapid self)]%string;
                        G0 [("Z", ClearanceHeight obj); ("F", vertRapid self)]%string].
Proof.
  intros Hd Hc Hp. unfold executeThreadMill.
  destruct (elevatorRadius_returns obj loc (isThreadInternal obj) (tool self) d w Hd)
    as (e & w' & He & Hw').
  unfold bind at 1. rewrite He.
  unfold bind, append, getattr, ret, lift. rewrite Hd, Hc.
  rewrite threadPasses_negative by assumption. simpl.
  eexists. split; [reflexivity|]. simpl. rewrite Hw', <- app_assoc. reflexivity.
Qed.

(** The method that does clamp, [threadPassRadii], is not on the
    execution path: for [Passes < 1] it sets [Passes] to 1 and returns the
    single radius (MajorDiameter - d)/2. *)
Lemma threadPassRadii_clamps self obj d :
  Diameter (tool self) = Some d -> (Passes obj < 1)%Z ->
  threadPassRadii self obj = Ok (set_Passes obj 1, [(MajorDiameter obj - d) / 2]).
Proof.
  intros Hd Hp. unfold threadPassRadii. rewrite Hd.
  apply Z.ltb_lt in Hp. rewrite Hp. reflexivity.
Qed.

(** A loop whose first iteration raises ends there. *)
Lemma forM__raise {A} (a : A) (t : list A) (body : A -> M unit) w e w' :
  body a w = (Raise e, w') -> forM_ (a :: t) body w = (Raise e, w').
Proof. intros H. simpl. unfold bind. rewrite H. reflexivity. Qed.

(** With a supported tool: the header comment, then either the pitch
    diagnostic or the holes in order. *)
Lemma circularHoleExecute_run isRoughly fuel self obj holes w :
  isToolSupported obj (tool self) = Ok true ->
  circularHoleExecute isRoughly fuel self obj holes w =
  let pitch := if (TPI obj >? 0)%Z then 25.4 / IZR (TPI obj) else Pitch obj in
  if Rleb pitch 0 then (Ok tt, logged (begun w) (BadPitch pitch))
  else
    forM_ holes (fun loc =>
      executeThreadMill isRoughly fuel self obj
        {| FreeCAD.x := fst loc; FreeCAD.y := snd loc; FreeCAD.z := 0 |}
        (fst (fst (threadSetup obj))) (snd (fst (threadSetup obj)))
        (snd (threadSetup obj)) pitch) (begun w).
Proof.
  intros Hsup. unfold circularHoleExecute. unfold bind at 1, lift. rewrite Hsup.
  unfold bind, append. destruct (threadSetup obj) as [[c zs] zf]. cbv zeta. simpl fst; simpl snd.
  destruct (Rleb _ 0); reflexivity.
Qed.

(** C7, at the failing input Passes=0 (metric internal thread 10/8.5,
    tool diameter 3, crest 0.5, one hole at the origin, pitch 1): the
    per-hole executor calls [threadPasses] with count 0, the division by
    the count raises ZeroDivisionError, and the planner ends with only the
    header and the first retract in its command list. *)
Theorem executeThreadMill_Passes_zero_raises :
  let obj := {| ThreadOrientation := RightHand; ThreadType := ThreadTypeMetricInternal6H;
                MajorDiameter := 10; MinorDiameter := 8.5; Pitch := 1; TPI := 0;
                Passes := 0; Direction := DirectionClimb; LeadInOut := false;
                StartDepth := 0; FinalDepth := -5; ClearanceHeight := 5 |} in
  let self := {| tool := {| Label := Some "T1"%string; Diameter := Some 3; Crest := Some 0.5 |};
                 vertRapid := 100; horizFeed := 50 |} in
  let loc := {| FreeCAD.x := 0; FreeCAD.y := 0; FreeCAD.z := 0 |} in
  let w := {| commandlist := []; errors := [] |} in
  threadPasses (Passes obj) threadRadii (isThreadInternal obj) 10 8.5 3 (Some 0.5)
    = Raise ZeroDivisionError /\
  fst (executeThreadMill (isRoughlyWithin 1e-6) 100 self obj loc "G3" (-5) 0 1 w)
    = Raise ZeroDivisionError /\
  circularHoleExecute (isRoughlyWithin 1e-6) 100 self obj [(0, 0)] w
    = (Raise ZeroDivisionError,
       {| commandlist := [Path.Build_Command "(Begin Thread Milling)" [];
                          G0 [("Z", 5); ("F", 100)]%string];
          errors := [] |}).
Proof.
  intros obj self loc w. split; [apply threadPasses_zero | split].
  - destruct (executeThreadMill_zero_passes (isRoughlyWithin 1e-6) 100 self obj loc
                "G3" (-5) 0 1 w 3 0.5 eq_refl eq_refl eq_refl) as (w' & Hrun & _).
    rewrite Hrun. reflexivity.
  - rewrite circularHoleExecute_run by reflexivity. cbv zeta.
    change (TPI obj >? 0)%Z with false. cbv iota. change (Pitch obj) with 1.
    rewrite Rleb_false by lra.
    destruct (executeThreadMill_zero_passes (isRoughlyWithin 1e-6) 100 self obj
                {| FreeCAD.x := 0; FreeCAD.y := 0; FreeCAD.z := 0 |}
                (fst (fst (threadSetup obj))) (snd (fst (threadSetup obj)))
                (snd (threadSetup obj)) 1 (begun w) 3 0.5 eq_refl eq_refl eq_refl)
      as (w1 & Hrun & Hcmds & Herr).
    apply forM__raise. cbn [fst snd]. rewrite Hrun. f_equal.
    destruct w1 as [cl er]. simpl in Hcmds. subst cl. cbn [errors] in Herr.
    change (isThreadInternal obj) with true in Herr.
    rewrite (elevatorRadius_internal_run _ _ _ 3) in Herr by reflexivity.
    cbv zeta in Herr. simpl MinorDiameter in Herr.
    rewrite (Rltb_false _ 0) in Herr by lra. simpl in Herr. subst er. reflexivity.
Qed.

(** ** ThreadMillPlanner: the pitch *)

(** Without a supported tool nothing is appended, not even the header. *)
Lemma circularHoleExecute_unsupported isRoughly fuel self obj holes w :
  isToolSupported obj (tool self) = Ok false ->
  circularHoleExecute isRoughly fuel self obj holes w = (Ok tt, logged w NoSuitableTool).
Proof.
  intros Hsup. unfold circularHoleExecute, bind, lift. rewrite Hsup. reflexivity.
Qed.

(** When the support test itself raises, the planner ends there. *)
Lemma circularHoleExecute_raises isRoughly fuel self obj holes w e :
  isToolSupported obj (tool self) = Raise e ->
  circularHoleExecute isRoughly fuel self obj holes w = (Raise e, w).
Proof.
  intros Hsup. unfold circularHoleExecute, bind, lift. rewrite Hsup. reflexivity.
Qed.

(** C5, as amended: with a supported tool the planner appends the
    "(Begin Thread Milling)" comment and resolves the pitch as 25.4/TPI
    when TPI > 0 (whatever Pitch is) and as Pitch otherwise; with a
    positive pitch the holes are run in order with that pitch; with a
    resolved pitch <= 0 (TPI <= 0 and Pitch <= 0) it logs the pitch
    diagnostic and returns normally without visiting any hole: no move
    command is emitted, and the command list has grown by exactly the
    header comment, which was appended before the pitch was checked. *)
Theorem circularHoleExecute_pitch isRoughly fuel self obj holes w :
  isToolSupported obj (tool self) = Ok true ->
  let run := circularHoleExecute isRoughly fuel self obj holes w in
  let holes_with (pitch : R) :=
    forM_ holes (fun loc =>
      executeThreadMill isRoughly fuel self obj
        {| FreeCAD.x := fst loc; FreeCAD.y := snd loc; FreeCAD.z := 0 |}
        (fst (fst (threadSetup obj))) (snd (fst (threadSetup obj)))
        (snd (threadSetup obj)) pitch) (begun w) in
  ((0 < TPI obj)%Z -> run = holes_with (25.4 / IZR (TPI obj))) /\
  ((TPI obj <= 0)%Z -> 0 < Pitch obj -> run = holes_with (Pitch obj)) /\
  ((TPI obj <= 0)%Z -> Pitch obj <= 0 ->
   run = (Ok tt, logged (begun w) (BadPitch (Pitch obj))) /\
   commandlist (snd run) =
     commandlist w ++ [Path.Build_Command "(Begin Thread Milling)" []] /\
   isMove (Path.Build_Command "(Begin Thread Milling)" []) = false).
Proof.
  intros Hsup run holes_with. subst run holes_with. cbv beta.
  rewrite circularHoleExecute_run by assumption. cbv zeta.
  split; [|split].
  - intros Htpi. replace (TPI obj >? 0)%Z with true
      by (symmetry; rewrite Z.gtb_ltb; apply Z.ltb_lt; lia).
    assert (Hpos : 0 < 25.4 / IZR (TPI obj)).
    { apply Rdiv_lt_0_compat; [lra | apply IZR_lt; assumption]. }
    rewrite Rleb_false by lra. reflexivity.
  - intros Htpi Hp. replace (TPI obj >? 0)%Z with false by (symmetry; rewrite Z.gtb_ltb; apply Z.ltb_ge; lia).
    rewrite Rleb_false by lra. reflexivity.
  - intros Htpi Hp. replace (TPI obj >? 0)%Z with false by (symmetry; rewrite Z.gtb_ltb; apply Z.ltb_ge; lia).
    rewrite Rleb_true by assumption. repeat split.
Qed.

(** The scenario TPI=0, Pitch=0 of the spec, two holes, empty world. *)
Lemma circularHoleExecute_pitch_witness :
  let obj := {| ThreadOrientation := RightHand; ThreadType := ThreadTypeMetricInternal6H;
                MajorDiameter := 10; MinorDiameter := 8.5; Pitch := 0; TPI := 0;
                Passes := 1; Direction := DirectionClimb; LeadInOut := false;
                StartDepth := 0; FinalDepth := -5; ClearanceHeight := 5 |} in
  let self := {| tool := {| Label := Some "T1"%string; Diameter := Some 3; Crest := Some 0.5 |};
                 vertRapid := 100; horizFeed := 50 |} in
  let w := {| commandlist := []; errors := [] |} in
  (isToolSupported obj (tool self) = Ok true /\ (TPI obj <= 0)%Z /\ Pitch obj <= 0) /\
  circularHoleExecute (isRoughlyWithin 1e-6) 100 self obj [(0, 0); (20, 0)] w =
    (Ok tt, {| commandlist := [Path.Build_Command "(Begin Thread Milling)" []];
               errors := [BadPitch 0] |}).
Proof.
  intros obj self w.
  assert (Htpi : (TPI obj <= 0)%Z) by (simpl; lia).
  assert (Hp : Pitch obj <= 0) by (simpl; lra).
  split; [split; [reflexivity | split; assumption]|].
  exact (proj1 (proj2 (proj2 (circularHoleExecute_pitch (isRoughlyWithin 1e-6) 100 self obj
                                [(0, 0); (20, 0)] w eq_refl)) Htpi Hp)).
Defined.

(** The two resolutions of the spec's scenario: TPI=20 gives 1.27. *)
Lemma pitch_of_TPI_20 : 25.4 / IZR 20 = 1.27.
Proof. lra. Qed.

(** C5, as stated, fails: with TPI=0, Pitch=0 and a supported tool the
    command list is not left empty; the planner has emitted the header
    comment command before it aborts. *)
Lemma circularHoleExecute_bad_pitch_emits_header :
  let obj := {| ThreadOrientation := RightHand; ThreadType := ThreadTypeMetricInternal6H;
                MajorDiameter := 10; MinorDiameter := 8.5; Pitch := 0; TPI := 0;
                Passes := 1; Direction := DirectionClimb; LeadInOut := false;
                StartDepth := 0; FinalDepth := -5; ClearanceHeight := 5 |} in
  let self := {| tool := {| Label := Some "T1"%string; Diameter := Some 3; Crest := Some 0.5 |};
                 vertRapid := 100; horizFeed := 50 |} in
  let w := {| commandlist := []; errors := [] |} in
  let run := circularHoleExecute (isRoughlyWithin 1e-6) 100 self obj [(0, 0)] w in
  commandlist (snd run) = [Path.Build_Command "(Begin Thread Milling)" []] /\
  commandlist (snd run) <> commandlist w.
Proof.
  intros obj self w run. subst run.
  rewrite circularHoleExecute_run by reflexivity. cbv zeta.
  change (TPI obj >? 0)%Z with false. cbv iota. change (Pitch obj) with 0.
  rewrite Rleb_true by lra. simpl. split; [reflexivity | discriminate].
Qed.

(** ** HelixPathSynthesizer: the loop *)

Lemma init_fields cmd zStart zFinal pitch :
  let thread := ThreadInternal.init cmd zStart zFinal pitch in
  ThreadInternal.cmd thread = cmd /\
  ThreadInternal.zStart thread = zStart /\
  ThreadInternal.zFinal thread = zFinal /\
  ThreadInternal.hPitch thread = ThreadInternal.pitch thread / 2 /\
  (zStart < zFinal -> ThreadInternal.pitch thread = pitch) /\
  (~ zStart < zFinal -> ThreadInternal.pitch thread = - pitch).
Proof.
  unfold ThreadInternal.init. cbn. repeat split; intros H.
  - rewrite Rltb_true by assumption. reflexivity.
  - rewrite Rltb_false by assumption. reflexivity.
Qed.

Section Helix.

Variable isRoughly : R -> R -> bool.
Variable thread : ThreadInternal.t.
Variables yMin yMax : R.

Lemma helix_stop_roughly fuel path z r i :
  isRoughly z (ThreadInternal.zFinal thread) = true ->
  helix isRoughly fuel thread yMin yMax path z r i = Some (path, z, r, i).
Proof. intros H. destruct fuel; simpl; rewrite H; reflexivity. Qed.

Lemma helix_stop_overshoots fuel path z r i :
  ThreadInternal.overshoots thread z = true ->
  helix isRoughly fuel thread yMin yMax path z r i = Some (path, z, r, i).
Proof.
  intros H. destruct fuel; simpl; rewrite H;
    destruct (isRoughly z (ThreadInternal.zFinal thread)); reflexivity.
Qed.

Lemma helix_step fuel path z r i :
  isRoughly z (ThreadInternal.zFinal thread) = false ->
  ThreadInternal.overshoots thread z = false ->
  helix isRoughly (S fuel) thread yMin yMax path z r i =
  helix isRoughly fuel thread yMin yMax (path ++ [helix_arc thread yMin yMax z r i])
    (z + ThreadInternal.hPitch thread) (- r) (i + 1)%Z.
Proof. intros H1 H2. simpl. rewrite H1, H2. reflexivity. Qed.

(** Where the loop ends it has ended for good: the test that stopped it
    holds of the state it returns. *)
Lemma helix_exit fuel : forall path z r i path' z' r' i',
  helix isRoughly fuel thread yMin yMax path z r i = Some (path', z', r', i') ->
  isRoughly z' (ThreadInternal.zFinal thread) = true \/
  ThreadInternal.overshoots thread z' = true.
Proof.
  induction fuel as [|fuel IH]; intros path z r i path' z' r' i' H; simpl in H;
    destruct (isRoughly z (ThreadInternal.zFinal thread)) eqn:Hr;
    try (injection H as <- <- <- <-; left; assumption);
    destruct (ThreadInternal.overshoots thread z) eqn:Ho;
    try (injection H as <- <- <- <-; right; assumption).
  - discriminate.
  - eapply IH; eassumption.
Qed.

(** The loop only appends; it makes [i' - i] half turns, each one
    [hPitch] higher, and the signed radius changes sign with each. *)
Lemma helix_invariant fuel : forall path z r i path' z' r' i',
  helix isRoughly fuel thread yMin yMax path z r i = Some (path', z', r', i') ->
  exists arcs,
    path' = path ++ arcs /\
    (i <= i')%Z /\
    length arcs = Z.to_nat (i' - i) /\
    z' = z + IZR (i' - i) * ThreadInternal.hPitch thread /\
    r' = (if Z.even (i' - i) then r else - r) /\
    Forall (fun c => Path.Name c = ThreadInternal.cmd thread) arcs.
Proof.
  induction fuel as [|fuel IH]; intros path z r i path' z' r' i' H; simpl in H;
    destruct (isRoughly z (ThreadInternal.zFinal thread)) eqn:Hr;
    try (injection H as <- <- <- <-; exists []; rewrite app_nil_r, Z.sub_diag;
         repeat split; [lia | simpl; lra | constructor]);
    destruct (ThreadInternal.overshoots thread z) eqn:Ho;
    try (injection H as <- <- <- <-; exists []; rewrite app_nil_r, Z.sub_diag;
         repeat split; [lia | simpl; lra | constructor]).
  - discriminate.
  - apply IH in H. destruct H as (arcs & Hp & Hi & Hlen & Hz & Hr' & Hall).
    exists (helix_arc thread yMin yMax z r i :: arcs). repeat split.
    + rewrite Hp, <- app_assoc. reflexivity.
    + lia.
    + simpl. rewrite Hlen. lia.
    + rewrite Hz. replace (i' - i)%Z with ((i' - (i + 1)) + 1)%Z by lia.
      rewrite plus_IZR. lra.
    + rewrite Hr'. replace (i' - i)%Z with (Z.succ (i' - (i + 1)))%Z by lia.
      rewrite Z.even_succ, <- Z.negb_even.
      destruct (Z.even (i' - (i + 1))); simpl; lra.
    + constructor; [reflexivity | assumption].
Qed.

(** More fuel does not change where the loop ends. *)
Lemma helix_fuel_mono fuel : forall extra path z r i st,
  helix isRoughly fuel thread yMin yMax path z r i = Some st ->
  helix isRoughly (fuel + extra) thread yMin yMax path z r i = Some st.
Proof.
  induction fuel as [|fuel IH]; intros extra path z r i st H; simpl in H;
    destruct (isRoughly z (ThreadInternal.zFinal thread)) eqn:Hr;
    try (rewrite helix_stop_roughly by assumption; assumption);
    destruct (ThreadInternal.overshoots thread z) eqn:Ho;
    try (rewrite helix_stop_overshoots by assumption; assumption).
  - discriminate.
  - change (S fuel + extra)%nat with (S (fuel + extra)).
    rewrite helix_step by assumption. apply IH. assumption.
Qed.

(** The loop of the model ends (exact arithmetic only): with a half
    pitch other than zero, of the sign of the pitch, a number of
    iterations above the distance to [zFinal] counted in half pitches is
    enough. *)
Lemma helix_enough_fuel :
  ThreadInternal.hPitch thread = ThreadInternal.pitch thread / 2 ->
  ThreadInternal.pitch thread <> 0 ->
  forall fuel path z r i,
    Rabs (ThreadInternal.zFinal thread - z)
      < INR fuel * Rabs (ThreadInternal.hPitch thread) ->
    helix isRoughly fuel thread yMin yMax path z r i <> None.
Proof.
  intros Hh Hp. induction fuel as [|fuel IH]; intros path z r i Hfuel.
  - simpl in Hfuel. rewrite Rmult_0_l in Hfuel.
    pose proof (Rabs_pos (ThreadInternal.zFinal thread - z)). lra.
  - destruct (isRoughly z (ThreadInternal.zFinal thread)) eqn:Hr;
      [rewrite helix_stop_roughly by assumption; discriminate|].
    destruct (ThreadInternal.overshoots thread z) eqn:Ho;
      [rewrite helix_stop_overshoots by assumption; discriminate|].
    rewrite helix_step by assumption. apply IH.
    rewrite S_INR in Hfuel. unfold ThreadInternal.overshoots in Ho.
    revert Hfuel Ho. rewrite Hh. unfold Rabs.
    destruct (Rltb (ThreadInternal.pitch thread) 0) eqn:Hneg; intros Hfuel Ho.
    + apply Rltb_spec in Hneg.
      assert (Hge : ~ z + ThreadInternal.pitch thread / 2 < ThreadInternal.zFinal thread)
        by (intros Hlt; rewrite (Rltb_true _ _ Hlt) in Ho; discriminate).
      repeat destruct (Rcase_abs _); nra.
    + assert (Hpos : ~ ThreadInternal.pitch thread < 0)
        by (intros Hlt; rewrite (Rltb_true _ _ Hlt) in Hneg; discriminate).
      assert (Hle : ~ ThreadInternal.zFinal thread < z + ThreadInternal.pitch thread / 2)
        by (intros Hlt; rewrite (Rltb_true _ _ Hlt) in Ho; discriminate).
      repeat destruct (Rcase_abs _); nra.
Qed.

Lemma helix_terminates path z r i :
  ThreadInternal.hPitch thread = ThreadInternal.pitch thread / 2 ->
  ThreadInternal.pitch thread <> 0 ->
  exists fuel st, helix isRoughly fuel thread yMin yMax path z r i = Some st.
Proof.
  intros Hh Hp.
  assert (Hpos : 0 < Rabs (ThreadInternal.hPitch thread))
    by (apply Rabs_pos_lt; rewrite Hh; lra).
  destruct (INR_unbounded (Rabs (ThreadInternal.zFinal thread - z)
                           / Rabs (ThreadInternal.hPitch thread))) as [fuel Hfuel].
  exists fuel.
  assert (Hlt : Rabs (ThreadInternal.zFinal thread - z)
                < INR fuel * Rabs (ThreadInternal.hPitch thread)).
  { apply (Rmult_lt_compat_r _ _ _ Hpos) in Hfuel.
    unfold Rdiv in Hfuel. rewrite Rmult_assoc, Rinv_l, Rmult_1_r in Hfuel; lra. }
  pose proof (helix_enough_fuel Hh Hp fuel path z r i Hlt) as Hne.
  destruct (helix isRoughly fuel thread yMin yMax path z r i) as [st|];
    [exists st; reflexivity | contradiction].
Qed.

End Helix.

(** ** HelixPathSynthesizer: one pass *)

(** The exit only appends to the path it is given. *)
Lemma threadCommands_exit_app thread center leadInOut elevator path x y :
  exists tail,
    threadCommands_exit thread center leadInOut elevator path x y = path ++ tail.
Proof.
  unfold threadCommands_exit, comment. cbv zeta.
  destruct leadInOut; rewrite <- ?app_assoc; eexists; reflexivity.
Qed.

(** In the model's exact arithmetic a pass returns: with a pitch other
    than zero there is an amount of fuel for which [threadCommands] gives
    its command list, and no exception is raised. *)
Lemma threadCommands_returns isRoughly center cmd zStart zFinal pitch radius leadInOut elevator :
  pitch <> 0 ->
  exists fuel cmds,
    threadCommands isRoughly fuel center cmd zStart zFinal pitch radius leadInOut elevator
      = Ok cmds.
Proof.
  intros Hp.
  destruct (init_fields cmd zStart zFinal pitch) as (_ & Hzs & _ & Hh & Hup & Hdown).
  set (thread := ThreadInternal.init cmd zStart zFinal pitch) in *.
  assert (Hpt : ThreadInternal.pitch thread <> 0).
  { destruct (Rlt_dec zStart zFinal) as [Hlt | Hge];
      [rewrite (Hup Hlt) | rewrite (Hdown Hge)]; lra. }
  destruct (helix_terminates isRoughly thread (FreeCAD.y center - radius)
              (FreeCAD.y center + radius)
              (threadCommands_entry thread center radius leadInOut elevator)
              (ThreadInternal.zStart thread) (- radius) 0%Z Hh Hpt)
    as (fuel & [[[path z] r] i] & Hhelix).
  exists fuel. unfold threadCommands. fold thread. cbv zeta. rewrite Hhelix.
  unfold threadCommands_finish.
  destruct (isRoughly z (ThreadInternal.zFinal thread)); [eexists; reflexivity|].
  rewrite Reqb_false by (rewrite Hh; lra).
  destruct (finish_point thread center r). eexists; reflexivity.
Qed.

(** C8, as amended: when the loop ends at a height [z] that is not
    roughly [zFinal], with signed radius [r] (which is -radius after an
    even number of half turns and +radius after an odd number), the pass
    continues with the partial-turn arc between two finish-thread
    comments; [z] is [i] half pitches from zStart, and with
    dx = sin(k*pi) the X of that arc is
    center.x - r*dx exactly when (the arc command is G3, counter-clockwise)
    XOR (the signed pitch is positive), and center.x + r*dx otherwise:
    the sum is taken when the two agree. *)
Theorem threadCommands_finish_X isRoughly fuel center cmd zStart zFinal pitch radius
    leadInOut elevator path z r i :
  let thread := ThreadInternal.init cmd zStart zFinal pitch in
  helix isRoughly fuel thread (FreeCAD.y center - radius) (FreeCAD.y center + radius)
    (threadCommands_entry thread center radius leadInOut elevator)
    zStart (- radius) 0%Z = Some (path, z, r, i) ->
  isRoughly z zFinal = false ->
  pitch <> 0 ->
  let dx := sin (finish_fraction thread * PI) in
  let X := if xorb (ThreadInternal.isG3 thread) (ThreadInternal.isUp thread)
           then FreeCAD.x center - r * dx else FreeCAD.x center + r * dx in
  z = zStart + IZR i * ThreadInternal.hPitch thread /\
  r = (if Z.even i then - radius else radius) /\
  exists Y tail,
    threadCommands isRoughly fuel center cmd zStart zFinal pitch radius leadInOut elevator =
    Ok (comment
          (comment path "finish-thread"
             ++ [Path.Build_Command cmd [("X", X); ("Y", Y); ("Z", zFinal); ("J", r)]%string])
          "finish-thread" ++ tail).
Proof.
  intros thread Hhelix Hrough Hp dx X.
  destruct (init_fields cmd zStart zFinal pitch) as (Hcmd & Hzs & Hzf & Hh & Hup & Hdown).
  fold thread in Hcmd, Hzs, Hzf, Hh, Hup, Hdown.
  assert (Hpt : ThreadInternal.pitch thread <> 0).
  { destruct (Rlt_dec zStart zFinal) as [Hlt | Hge];
      [rewrite (Hup Hlt) | rewrite (Hdown Hge)]; lra. }
  destruct (helix_invariant _ _ _ _ _ _ _ _ _ _ _ _ _ Hhelix) as (_ & _ & _ & _ & Hz & Hr & _).
  rewrite Z.sub_0_r in Hz, Hr.
  split; [exact Hz | split].
  - rewrite Hr. destruct (Z.even i); lra.
  - unfold threadCommands. fold thread. cbv zeta. rewrite Hzs, Hhelix.
    unfold threadCommands_finish. rewrite Hzf, Hrough.
    rewrite Reqb_false by (rewrite Hh; lra).
    unfold finish_point. cbv zeta. rewrite Hcmd.
    match goal with
    | |- context [threadCommands_exit ?t ?c ?l ?e ?p ?x ?y] =>
        destruct (threadCommands_exit_app t c l e p x y) as [tail Htail]; rewrite Htail
    end.
    exists (ThreadInternal.adjustY thread (FreeCAD.y center)
              (r * cos (finish_fraction thread * PI))), tail.
    do 5 f_equal. subst X dx. unfold ThreadInternal.adjustX, ThreadInternal.isUp.
    destruct (ThreadInternal.isG3 thread), (Rltb 0 (ThreadInternal.pitch thread));
      reflexivity.
Qed.

(** ** HelixPathSynthesizer: a pass of one and a half half-turns *)

Lemma trunc_floor (n : R) (m : Z) : 0 <= n -> IZR m <= n < IZR m + 1 -> trunc n = m.
Proof.
  intros Hpos [Hlo Hhi]. unfold trunc. destruct (Rle_dec 0 n); [|contradiction].
  destruct (base_Int_part n) as [Hle Hgt].
  assert (H1 : (Int_part n < m + 1)%Z) by (apply lt_IZR; rewrite plus_IZR; lra).
  assert (H2 : (m < Int_part n + 1)%Z) by (apply lt_IZR; rewrite plus_IZR; lra).
  lia.
Qed.

Lemma isRoughlyWithin_far (e a b : R) :
  e < a - b \/ e < b - a -> isRoughlyWithin e a b = false.
Proof.
  intros H. unfold isRoughlyWithin. apply Rleb_false. apply Rabs_gap. assumption.
Qed.

Lemma isRoughlyWithin_near (e a b : R) :
  - e <= a - b <= e -> isRoughlyWithin e a b = true.
Proof.
  intros H. unfold isRoughlyWithin. apply Rleb_true. apply Rabs_within. assumption.
Qed.

(** The thread from z = 0 up to z = 1.5 with pitch 2, counter-clockwise,
    radius 1 around the origin, no lead-in, elevator 0: one half turn fits,
    half of a half turn is left. *)
Lemma helix_one_and_a_half :
  helix (isRoughlyWithin 1e-6) 5 (ThreadInternal.init "G3" 0 1.5 2)
    (FreeCAD.y origin - 1) (FreeCAD.y origin + 1)
    (threadCommands_entry (ThreadInternal.init "G3" 0 1.5 2) origin 1 false 0)
    0 (- (1)) 0%Z
  = Some (threadCommands_entry (ThreadInternal.init "G3" 0 1.5 2) origin 1 false 0
            ++ [helix_arc (ThreadInternal.init "G3" 0 1.5 2)
                  (FreeCAD.y origin - 1) (FreeCAD.y origin + 1) 0 (- (1)) 0%Z],
          0 + ThreadInternal.hPitch (ThreadInternal.init "G3" 0 1.5 2),
          - - (1), (0 + 1)%Z).
Proof.
  destruct (init_fields "G3" 0 1.5 2) as (_ & _ & Hzf & Hh & Hup & _).
  specialize (Hup ltac:(lra)).
  rewrite helix_step.
  - rewrite helix_stop_overshoots; [reflexivity|].
    unfold ThreadInternal.overshoots. rewrite Hzf, Hh, Hup.
    rewrite (Rltb_false 2 0) by lra. apply Rltb_true. lra.
  - rewrite Hzf. apply isRoughlyWithin_far. lra.
  - unfold ThreadInternal.overshoots. rewrite Hzf, Hh, Hup.
    rewrite (Rltb_false 2 0) by lra. apply Rltb_false. lra.
Qed.

Lemma one_and_a_half_not_roughly :
  isRoughlyWithin 1e-6 (0 + ThreadInternal.hPitch (ThreadInternal.init "G3" 0 1.5 2)) 1.5
  = false.
Proof.
  destruct (init_fields "G3" 0 1.5 2) as (_ & _ & _ & Hh & Hup & _).
  rewrite Hh, Hup by lra. apply isRoughlyWithin_far. lra.
Qed.

Lemma one_and_a_half_isUp :
  ThreadInternal.isUp (ThreadInternal.init "G3" 0 1.5 2) = true.
Proof.
  unfold ThreadInternal.isUp.
  destruct (init_fields "G3" 0 1.5 2) as (_ & _ & _ & _ & Hup & _).
  rewrite Hup by lra. apply Rltb_true. lra.
Qed.

Lemma finish_fraction_one_and_a_half :
  finish_fraction (ThreadInternal.init "G3" 0 1.5 2) = 1 / 2.
Proof.
  destruct (init_fields "G3" 0 1.5 2) as (_ & Hzs & Hzf & Hh & Hup & _).
  specialize (Hup ltac:(lra)).
  unfold finish_fraction. cbv zeta. rewrite Hzs, Hzf, Hh, Hup.
  replace (Rabs (1.5 - 0) / (2 / 2)) with 1.5
    by (rewrite Rabs_pos_eq by lra; lra).
  rewrite (trunc_floor 1.5 1) by lra. lra.
Qed.

(** The whole pass: entry, one half turn, the partial turn to
    (x, y) = (1, 0) at z = 1.5, exit. *)
Lemma threadCommands_one_and_a_half :
  exists tail,
    threadCommands (isRoughlyWithin 1e-6) 5 origin "G3" 0 1.5 2 1 false 0 =
    Ok (comment
          (comment
             (threadCommands_entry (ThreadInternal.init "G3" 0 1.5 2) origin 1 false 0
                ++ [helix_arc (ThreadInternal.init "G3" 0 1.5 2)
                      (FreeCAD.y origin - 1) (FreeCAD.y origin + 1) 0 (- (1)) 0%Z])
             "finish-thread"
             ++ [Path.Build_Command "G3"
                   [("X", FreeCAD.x origin + - - (1) * sin (1 / 2 * PI));
                    ("Y", FreeCAD.y origin - - - (1) * cos (1 / 2 * PI));
                    ("Z", 1.5); ("J", - - (1))]%string])
          "finish-thread" ++ tail).
Proof.
  destruct (init_fields "G3" 0 1.5 2) as (_ & _ & _ & Hh & Hup & _).
  specialize (Hup ltac:(lra)).
  unfold threadCommands. cbv zeta.
  change (ThreadInternal.zStart (ThreadInternal.init "G3" 0 1.5 2)) with 0.
  rewrite helix_one_and_a_half. unfold threadCommands_finish.
  change (ThreadInternal.zFinal (ThreadInternal.init "G3" 0 1.5 2)) with 1.5.
  rewrite one_and_a_half_not_roughly.
  rewrite Reqb_false by (rewrite Hh, Hup; lra).
  unfold finish_point. cbv zeta. rewrite finish_fraction_one_and_a_half.
  unfold ThreadInternal.adjustX, ThreadInternal.adjustY.
  fold (ThreadInternal.isUp (ThreadInternal.init "G3" 0 1.5 2)).
  rewrite one_and_a_half_isUp.
  change (ThreadInternal.isG3 (ThreadInternal.init "G3" 0 1.5 2)) with true.
  change (ThreadInternal.cmd (ThreadInternal.init "G3" 0 1.5 2)) with "G3"%string.
  cbv iota. cbn [Bool.eqb].
  match goal with
  | |- context [threadCommands_exit ?t ?c ?l ?e ?p ?x ?y] =>
      destruct (threadCommands_exit_app t c l e p x y) as [tail Htail]; rewrite Htail
  end.
  exists tail. reflexivity.
Qed.

Lemma threadCommands_finish_X_witness :
  let thread := ThreadInternal.init "G3" 0 1.5 2 in
  let dx := sin (finish_fraction thread * PI) in
  exists path z r i,
    (helix (isRoughlyWithin 1e-6) 5 thread (FreeCAD.y origin - 1) (FreeCAD.y origin + 1)
       (threadCommands_entry thread origin 1 false 0) 0 (- (1)) 0%Z = Some (path, z, r, i) /\
     isRoughlyWithin 1e-6 z 1.5 = false /\ 2 <> 0) /\
    z = 0 + IZR i * ThreadInternal.hPitch thread /\
    r = (if Z.even i then - (1) else 1) /\
    exists Y tail,
      threadCommands (isRoughlyWithin 1e-6) 5 origin "G3" 0 1.5 2 1 false 0 =
      Ok (comment
            (comment path "finish-thread"
               ++ [Path.Build_Command "G3"
                     [("X", if xorb (ThreadInternal.isG3 thread) (ThreadInternal.isUp thread)
                            then FreeCAD.x origin - r * dx else FreeCAD.x origin + r * dx);
                      ("Y", Y); ("Z", 1.5); ("J", r)]%string])
            "finish-thread" ++ tail).
Proof.
  intros thread dx.
  assert (Hp : 2 <> 0) by lra.
  do 4 eexists.
  split; [split; [exact helix_one_and_a_half
                 | split; [exact one_and_a_half_not_roughly | exact Hp]]|].
  exact (threadCommands_finish_X (isRoughlyWithin 1e-6) 5 origin "G3" 0 1.5 2 1 false 0
           _ _ _ _ helix_one_and_a_half one_and_a_half_not_roughly Hp).
Defined.

(** C8, as stated, fails.  In the pass above the arc is counter-clockwise
    (G3) and the signed pitch is positive, so the XOR is false and the
    claim puts X at center.x - r*dx = -1; the partial turn that
    [threadCommands] emits has r = 1, dx = sin(pi/2) = 1 and
    X = center.x + r*dx = 1. *)
Lemma threadCommands_finish_X_not_xor :
  ThreadInternal.isG3 (ThreadInternal.init "G3" 0 1.5 2) = true /\
  ThreadInternal.isUp (ThreadInternal.init "G3" 0 1.5 2) = true /\
  sin (finish_fraction (ThreadInternal.init "G3" 0 1.5 2) * PI) = 1 /\
  exists path X Y r tail,
    threadCommands (isRoughlyWithin 1e-6) 5 origin "G3" 0 1.5 2 1 false 0 =
    Ok (comment
          (comment path "finish-thread"
             ++ [Path.Build_Command "G3" [("X", X); ("Y", Y); ("Z", 1.5); ("J", r)]%string])
          "finish-thread" ++ tail) /\
    r = 1 /\ X = 1 /\
    finish_X_as_claimed true true (FreeCAD.x origin) r 1 = -1 /\
    X <> finish_X_as_claimed true true (FreeCAD.x origin) r 1.
Proof.
  assert (Hdx : sin (finish_fraction (ThreadInternal.init "G3" 0 1.5 2) * PI) = 1).
  { rewrite finish_fraction_one_and_a_half.
    replace (1 / 2 * PI) with (PI / 2) by lra. apply sin_PI2. }
  split; [reflexivity | split; [exact one_and_a_half_isUp | split; [exact Hdx|]]].
  destruct threadCommands_one_and_a_half as [tail Hrun].
  do 5 eexists. split; [exact Hrun|].
  rewrite finish_fraction_one_and_a_half in Hdx.
  unfold finish_X_as_claimed. rewrite Hdx. simpl.
  repeat split; lra.
Qed.

(** * Further properties of the code *)

(** ** One pass: the zero pitch *)

(** X2: with pitch 0 and zStart below zFinal (not roughly equal) the loop
    of [threadCommands] never ends: the height does not move and no test
    stops it, so no number of iterations gives a result. *)
Theorem threadCommands_zero_pitch_up_never_ends isRoughly fuel center cmd zStart zFinal
    radius leadInOut elevator :
  zStart < zFinal -> isRoughly zStart zFinal = false ->
  threadCommands isRoughly fuel center cmd zStart zFinal 0 radius leadInOut elevator
  = OutOfFuel.
Proof.
  intros Hlt Hrough.
  destruct (init_fields cmd zStart zFinal 0) as (_ & Hzs & Hzf & Hh & Hup & _).
  specialize (Hup Hlt).
  unfold threadCommands. cbv zeta.
  set (thread := ThreadInternal.init cmd zStart zFinal 0) in *.
  assert (Hloop : forall fuel path z r i,
             z = zStart ->
             helix isRoughly fuel thread (FreeCAD.y center - radius)
               (FreeCAD.y center + radius) path z r i = None).
  { clear fuel. induction fuel as [|fuel IH]; intros path z r i Hz; cbn [helix];
      rewrite Hzf, Hz, Hrough; unfold ThreadInternal.overshoots;
      rewrite Hzf, Hh, Hup, (Rltb_false 0 0), (Rltb_false zFinal) by lra.
    - reflexivity.
    - apply IH. lra. }
  rewrite Hloop by (rewrite Hzs; reflexivity). reflexivity.
Qed.

Lemma threadCommands_zero_pitch_up_never_ends_witness :
  (0 < 1.5 /\ isRoughlyWithin 1e-6 0 1.5 = false) /\
  threadCommands (isRoughlyWithin 1e-6) 1000 origin "G3" 0 1.5 0 1 false 0 = OutOfFuel.
Proof.
  assert (Hlt : 0 < 1.5) by lra.
  assert (Hr : isRoughlyWithin 1e-6 0 1.5 = false) by (apply isRoughlyWithin_far; lra).
  split; [split; assumption|].
  exact (threadCommands_zero_pitch_up_never_ends (isRoughlyWithin 1e-6) 1000 origin "G3"
           0 1.5 1 false 0 Hlt Hr).
Defined.

(** X3: with pitch 0 and zStart above zFinal (not roughly equal) the loop
    stops at once as overshooting and the division by the half pitch
    raises ZeroDivisionError, whatever the number of iterations allowed. *)
Theorem threadCommands_zero_pitch_down_raises isRoughly fuel center cmd zStart zFinal
    radius leadInOut elevator :
  zFinal < zStart -> isRoughly zStart zFinal = false ->
  threadCommands isRoughly fuel center cmd zStart zFinal 0 radius leadInOut elevator
  = Raise ZeroDivisionError.
Proof.
  intros Hlt Hrough.
  destruct (init_fields cmd zStart zFinal 0) as (_ & Hzs & Hzf & Hh & _ & Hdown).
  specialize (Hdown ltac:(lra)).
  unfold threadCommands. cbv zeta.
  set (thread := ThreadInternal.init cmd zStart zFinal 0) in *.
  rewrite helix_stop_overshoots.
  - unfold threadCommands_finish. rewrite Hzs, Hzf, Hrough.
    rewrite Reqb_true by (rewrite Hh, Hdown; lra). reflexivity.
  - unfold ThreadInternal.overshoots. rewrite Hzs, Hzf, Hh, Hdown.
    rewrite (Rltb_false (- 0) 0) by lra. apply Rltb_true. lra.
Qed.

Lemma threadCommands_zero_pitch_down_raises_witness :
  (-5 < 0 /\ isRoughlyWithin 1e-6 0 (-5) = false) /\
  threadCommands (isRoughlyWithin 1e-6) 10 origin "G3" 0 (-5) 0 1 false 0
  = Raise ZeroDivisionError.
Proof.
  assert (Hlt : -5 < 0) by lra.
  assert (Hr : isRoughlyWithin 1e-6 0 (-5) = false) by (apply isRoughlyWithin_far; lra).
  split; [split; assumption|].
  exact (threadCommands_zero_pitch_down_raises (isRoughlyWithin 1e-6) 10 origin "G3"
           0 (-5) 1 false 0 Hlt Hr).
Defined.

(** ** One pass: the thread of no depth *)

Lemma atan2_straight_down (y x : R) : x = 0 -> y < 0 -> atan2 y x = - (PI / 2).
Proof.
  intros Hx Hy. unfold atan2. subst x.
  rewrite (Rltb_false 0 0), (Rltb_false 0 y), (Rltb_true y 0) by lra. lra.
Qed.

(** The pass of a thread of no depth, command by command. *)
Lemma threadCommands_zero_depth_run isRoughly fuel center cmd zStart zFinal pitch radius
    leadInOut elevator :
  isRoughly zStart zFinal = true -> 0 < radius ->
  let cx := FreeCAD.x center in
  let cy := FreeCAD.y center in
  threadCommands isRoughly fuel center cmd zStart zFinal pitch radius leadInOut elevator =
  Ok ([G0 [("X", cx); ("Y", cy + elevator)]%string; G0 [("Z", zStart)]%string]
      ++ (if leadInOut
          then comment [] "lead-in"
               ++ [Path.Build_Command cmd
                     [("Y", cy + radius); ("J", (radius - elevator) / 2)]%string]
               ++ comment [] "lead-in"
          else [G1 [("Y", cy + radius)]%string])
      ++ (if leadInOut
          then comment [] "lead-out"
               ++ [Path.Build_Command cmd
                     [("X", cx); ("Y", cy - elevator); ("I", 0);
                      ("J", - elevator / 2)]%string]
               ++ comment [] "lead-out"
          else [])
      ++ [G1 [("X", cx); ("Y", cy + elevator)]%string]).
Proof.
  intros Hrough Hrad cx cy.
  destruct (init_fields cmd zStart zFinal pitch) as (Hcmd & Hzs & Hzf & _).
  unfold threadCommands. cbv zeta.
  set (thread := ThreadInternal.init cmd zStart zFinal pitch) in *.
  rewrite helix_stop_roughly by (rewrite Hzs, Hzf; exact Hrough).
  unfold threadCommands_finish. rewrite Hzs, Hzf, Hrough.
  change (Z.land 0 1 =? 0)%Z with true. cbv iota.
  unfold threadCommands_exit. cbv zeta. fold cx cy.
  rewrite (atan2_straight_down (cy - radius - cy) (cx - cx)) by lra.
  rewrite cos_neg, sin_neg, cos_PI2, sin_PI2.
  unfold threadCommands_entry, comment. cbv zeta. rewrite Hcmd, Hzs. fold cx cy.
  replace (cx + 0 * elevator) with cx by lra.
  replace (cy - - (1) * elevator) with (cy + elevator) by lra.
  destruct leadInOut; cbn [app]; [|reflexivity].
  replace (cy + - (1) * elevator) with (cy - elevator) by lra.
  replace (0 * elevator / 2) with 0 by lra.
  replace (- (1) * elevator / 2) with (- elevator / 2) by lra.
  replace ((cy + radius - (cy + elevator)) / 2) with ((radius - elevator) / 2) by lra.
  reflexivity.
Qed.


(** X4: when zStart is roughly zFinal and the radius is positive, a pass
    has no helix arc and no finish move: it is the entry (rapid to the
    elevator point, rapid down to zStart, then the lead-in arc between its
    comments or the plain move to the top of the circle) followed by the
    exit taken from the bottom of the circle (the lead-out arc between its
    comments, when asked for, and the final move), which ends on the
    elevator point (center.x, center.y + elevator). *)
Theorem threadCommands_zero_depth isRoughly fuel center cmd zStart zFinal pitch radius
    leadInOut elevator :
  isRoughly zStart zFinal = true -> 0 < radius ->
  let cx := FreeCAD.x center in
  let cy := FreeCAD.y center in
  threadCommands isRoughly fuel center cmd zStart zFinal pitch radius leadInOut elevator =
  Ok ([G0 [("X", cx); ("Y", cy + elevator)]%string; G0 [("Z", zStart)]%string]
      ++ (if leadInOut
          then comment [] "lead-in"
               ++ [Path.Build_Command cmd
                     [("Y", cy + radius); ("J", (radius - elevator) / 2)]%string]
               ++ comment [] "lead-in"
          else [G1 [("Y", cy + radius)]%string])
      ++ (if leadInOut
          then comment [] "lead-out"
               ++ [Path.Build_Command cmd
                     [("X", cx); ("Y", cy - elevator); ("I", 0);
                      ("J", - elevator / 2)]%string]
               ++ comment [] "lead-out"
          else [])
      ++ [G1 [("X", cx); ("Y", cy + elevator)]%string]).
Proof.
  intros Hrough Hrad. apply threadCommands_zero_depth_run; assumption.
Qed.

Lemma threadCommands_zero_depth_witness :
  (isRoughlyWithin 1e-6 3 3 = true /\ 0 < 1) /\
  threadCommands (isRoughlyWithin 1e-6) 0 origin "G3" 3 3 2 1 false 4 =
  Ok [G0 [("X", 0); ("Y", 0 + 4)]%string; G0 [("Z", 3)]%string;
      G1 [("Y", 0 + 1)]%string; G1 [("X", 0); ("Y", 0 + 4)]%string].
Proof.
  assert (Hr : isRoughlyWithin 1e-6 3 3 = true) by (apply isRoughlyWithin_near; lra).
  assert (Hrad : 0 < 1) by lra.
  split; [split; assumption|].
  exact (threadCommands_zero_depth (isRoughlyWithin 1e-6) 0 origin "G3" 3 3 2 1 false 4
           Hr Hrad).
Defined.

(** ** One pass: the helix arcs *)

Lemma range_cons (n : nat) :
  range (Z.of_nat (S n)) = 0%Z :: map (fun k => (k + 1)%Z) (range (Z.of_nat n)).
Proof.
  unfold range. rewrite !Nat2Z.id. cbn [seq map]. f_equal.
  rewrite <- seq_shift, !map_map. apply map_ext. intros k. lia.
Qed.

(** X5: the arcs the loop appends, in closed form: after the loop has
    run from half-turn index [i] to [i'], the path has grown by exactly
    [i' - i] arcs, and the k-th of them (from 0) is the arc of one
    iteration taken at height z + k * hPitch, with the signed radius [r]
    for even k and [-r] for odd k, at index i + k (so Y alternates
    between yMin and yMax and Z climbs by one half pitch per arc). *)
Theorem helix_arcs_closed_form isRoughly fuel thread yMin yMax path z r i path' z' r' i' :
  helix isRoughly fuel thread yMin yMax path z r i = Some (path', z', r', i') ->
  (i <= i')%Z /\
  z' = z + IZR (i' - i) * ThreadInternal.hPitch thread /\
  path' = path ++
    map (fun k => helix_arc thread yMin yMax
                    (z + IZR k * ThreadInternal.hPitch thread)
                    (if Z.even k then r else - r) (i + k)%Z)
        (range (i' - i)).
Proof.
  revert path z r i.
  induction fuel as [|fuel IH]; intros path z r i H; cbn [helix] in H;
    destruct (isRoughly z (ThreadInternal.zFinal thread)) eqn:Hr;
    try (injection H as <- <- <- <-; rewrite Z.sub_diag; cbn; rewrite app_nil_r;
         repeat split; [lia | lra]);
    destruct (ThreadInternal.overshoots thread z) eqn:Ho;
    try (injection H as <- <- <- <-; rewrite Z.sub_diag; cbn; rewrite app_nil_r;
         repeat split; [lia | lra]).
  - discriminate.
  - apply IH in H. destruct H as (Hi & Hz & Hp).
    assert (Hn : (i' - i)%Z = Z.of_nat (S (Z.to_nat (i' - (i + 1))))) by lia.
    assert (Hm : (i' - (i + 1))%Z = Z.of_nat (Z.to_nat (i' - (i + 1)))) by lia.
    repeat split.
    + lia.
    + rewrite Hz. replace (i' - i)%Z with ((i' - (i + 1)) + 1)%Z by lia.
      rewrite plus_IZR. lra.
    + rewrite Hp, Hn, range_cons, <- Hm, <- app_assoc. f_equal.
      cbn [map app]. f_equal.
      * f_equal; [lra | f_equal; lia].
      * rewrite map_map. apply map_ext_in. intros k Hk.
        assert (Hk0 : (0 <= k)%Z).
        { unfold range in Hk. apply in_map_iff in Hk. destruct Hk as (n & <- & _). lia. }
        f_equal.
        -- rewrite plus_IZR. lra.
        -- replace (k + 1)%Z with (Z.succ k) by lia. rewrite Z.even_succ, <- Z.negb_even.
           destruct (Z.even k); cbn; lra.
        -- lia.
Qed.

Lemma helix_arcs_closed_form_witness :
  exists path' z' r' i',
    helix (isRoughlyWithin 1e-6) 5 (ThreadInternal.init "G3" 0 1.5 2)
      (FreeCAD.y origin - 1) (FreeCAD.y origin + 1)
      (threadCommands_entry (ThreadInternal.init "G3" 0 1.5 2) origin 1 false 0)
      0 (- (1)) 0%Z = Some (path', z', r', i') /\
    (0 <= i')%Z /\
    z' = 0 + IZR (i' - 0) * ThreadInternal.hPitch (ThreadInternal.init "G3" 0 1.5 2) /\
    path' =
      threadCommands_entry (ThreadInternal.init "G3" 0 1.5 2) origin 1 false 0 ++
      map (fun k => helix_arc (ThreadInternal.init "G3" 0 1.5 2)
                      (FreeCAD.y origin - 1) (FreeCAD.y origin + 1)
                      (0 + IZR k * ThreadInternal.hPitch (ThreadInternal.init "G3" 0 1.5 2))
                      (if Z.even k then - (1) else - - (1)) (0 + k)%Z)
          (range (i' - 0)).
Proof.
  do 4 eexists. split; [exact helix_one_and_a_half|].
  exact (helix_arcs_closed_form _ _ _ _ _ _ _ _ _ _ _ _ _ helix_one_and_a_half).
Defined.

(** X6: the loop never cuts beyond zFinal.  With the half pitch being
    half the signed pitch, the height at which the k-th appended arc ends,
    z + (k+1) * hPitch, lies on the way from z to zFinal: for a negative
    pitch it is below z and not below zFinal, otherwise it is not below z
    and not above zFinal. *)
Theorem helix_never_beyond_zFinal isRoughly fuel thread yMin yMax path z r i
    path' z' r' i' :
  ThreadInternal.hPitch thread = ThreadInternal.pitch thread / 2 ->
  helix isRoughly fuel thread yMin yMax path z r i = Some (path', z', r', i') ->
  forall k, (0 <= k < i' - i)%Z ->
    let zk := z + IZR (k + 1) * ThreadInternal.hPitch thread in
    (ThreadInternal.pitch thread < 0 -> ThreadInternal.zFinal thread <= zk < z) /\
    (0 <= ThreadInternal.pitch thread -> z <= zk <= ThreadInternal.zFinal thread).
Proof.
  intros Hh. revert path z r i.
  induction fuel as [|fuel IH]; intros path z r i H k Hk; cbn [helix] in H;
    destruct (isRoughly z (ThreadInternal.zFinal thread)) eqn:Hr;
    try (injection H as <- <- <- <-; lia);
    destruct (ThreadInternal.overshoots thread z) eqn:Ho;
    try (injection H as <- <- <- <-; lia).
  - discriminate.
  - assert (Hnow :
      (ThreadInternal.pitch thread < 0 ->
       ThreadInternal.zFinal thread <= z + ThreadInternal.hPitch thread) /\
      (0 <= ThreadInternal.pitch thread ->
       z + ThreadInternal.hPitch thread <= ThreadInternal.zFinal thread)).
    { unfold ThreadInternal.overshoots in Ho. split; intros Hs.
      - rewrite (Rltb_true _ 0 Hs) in Ho.
        destruct (Rlt_dec (z + ThreadInternal.hPitch thread) (ThreadInternal.zFinal thread))
          as [Hlt|Hge]; [rewrite (Rltb_true _ _ Hlt) in Ho; discriminate | lra].
      - rewrite (Rltb_false _ 0) in Ho by lra.
        destruct (Rlt_dec (ThreadInternal.zFinal thread) (z + ThreadInternal.hPitch thread))
          as [Hlt|Hge]; [rewrite (Rltb_true _ _ Hlt) in Ho; discriminate | lra]. }
    cbv zeta. destruct (Z.eq_dec k 0) as [-> | Hk0].
    + change (IZR (0 + 1)) with 1. rewrite Rmult_1_l. split; intros Hs.
      * destruct Hnow as [Hn _]. specialize (Hn Hs). lra.
      * destruct Hnow as [_ Hn]. specialize (Hn Hs). lra.
    + specialize (IH _ _ _ _ H (k - 1)%Z ltac:(lia)). cbv zeta in IH.
      replace (k - 1 + 1)%Z with k in IH by lia.
      rewrite plus_IZR. destruct IH as [IHn IHp]. split; intros Hs.
      * specialize (IHn Hs). lra.
      * specialize (IHp Hs). lra.
Qed.

Lemma helix_never_beyond_zFinal_witness :
  exists path' z' r' i',
    (ThreadInternal.hPitch (ThreadInternal.init "G3" 0 1.5 2)
       = ThreadInternal.pitch (ThreadInternal.init "G3" 0 1.5 2) / 2 /\
     helix (isRoughlyWithin 1e-6) 5 (ThreadInternal.init "G3" 0 1.5 2)
       (FreeCAD.y origin - 1) (FreeCAD.y origin + 1)
       (threadCommands_entry (ThreadInternal.init "G3" 0 1.5 2) origin 1 false 0)
       0 (- (1)) 0%Z = Some (path', z', r', i') /\
     (0 <= 0 < i' - 0)%Z) /\
    (ThreadInternal.pitch (ThreadInternal.init "G3" 0 1.5 2) < 0 ->
     1.5 <= 0 + IZR (0 + 1) * ThreadInternal.hPitch (ThreadInternal.init "G3" 0 1.5 2) < 0) /\
    (0 <= ThreadInternal.pitch (ThreadInternal.init "G3" 0 1.5 2) ->
     0 <= 0 + IZR (0 + 1) * ThreadInternal.hPitch (ThreadInternal.init "G3" 0 1.5 2) <= 1.5).
Proof.
  assert (Hh : ThreadInternal.hPitch (ThreadInternal.init "G3" 0 1.5 2)
               = ThreadInternal.pitch (ThreadInternal.init "G3" 0 1.5 2) / 2)
    by reflexivity.
  assert (Hk : (0 <= 0 < 0 + 1 - 0)%Z) by lia.
  do 4 eexists. split; [split; [exact Hh | split; [exact helix_one_and_a_half | exact Hk]]|].
  exact (helix_never_beyond_zFinal _ _ _ _ _ _ _ _ _ _ _ _ _ Hh helix_one_and_a_half 0%Z Hk).
Defined.

(** ** The planner: what it appends *)

Lemma get_update_same (k : string) (v : R) (d : Path.dict) :
  Path.get k (Path.update k v d) = Some v.
Proof.
  induction d as [|[k' v'] d IH]; cbn.
  - rewrite String.eqb_refl. reflexivity.
  - destruct (String.eqb k k') eqn:Hk; cbn; rewrite ?String.eqb_refl, ?Hk; auto.
Qed.

Lemma appends_ret {A} P (a : A) : appends P (ret a).
Proof. intros w. exists [], []. cbn. rewrite !app_nil_r. auto. Qed.

Lemma appends_lift {A} P (r : result A) : appends P (lift r).
Proof. intros w. exists [], []. cbn. rewrite !app_nil_r. auto. Qed.

Lemma appends_getattr {A} P (o : option A) : appends P (getattr o).
Proof. destruct o; [apply appends_ret | apply appends_lift]. Qed.

Lemma appends_append P c : P c -> appends P (append c).
Proof. intros Hc w. exists [c], []. cbn. rewrite app_nil_r. auto. Qed.

Lemma appends_extend P cs : Forall P cs -> appends P (extend cs).
Proof. intros Hcs w. exists cs, []. cbn. rewrite app_nil_r. auto. Qed.

Lemma appends_error P d : appends P (PathLog_error d).
Proof. intros w. exists [], [d]. cbn. rewrite app_nil_r. auto. Qed.

Lemma appends_bind {A B} P (m : M A) (k : A -> M B) :
  appends P m -> (forall a, appends P (k a)) -> appends P (bind m k).
Proof.
  intros Hm Hk w. unfold bind. destruct (Hm w) as (cmds & errs & Hc & He & HP).
  destruct (m w) as [[a | e |] w1]; cbn [snd] in Hc, He;
    try (exists cmds, errs; cbn [snd]; solve [auto]).
  destruct (Hk a w1) as (cmds' & errs' & Hc' & He' & HP').
  exists (cmds ++ cmds'), (errs ++ errs').
  rewrite Hc', He', Hc, He, <- !app_assoc. repeat split. apply Forall_app. auto.
Qed.

Lemma appends_forM_ {A} P (l : list A) (body : A -> M unit) :
  (forall a, appends P (body a)) -> appends P (forM_ l body).
Proof.
  intros Hb. induction l as [|a l IH]; cbn [forM_].
  - apply appends_ret.
  - apply appends_bind; [apply Hb | intros _; exact IH].
Qed.

Lemma appends_elevatorRadius P obj center internal tool :
  appends P (elevatorRadius obj center internal tool).
Proof.
  unfold elevatorRadius.
  destruct internal; (apply appends_bind; [apply appends_getattr | intros d]).
  - cbv zeta. destruct (Rltb _ 0); [|apply appends_ret].
    apply appends_bind; [|intros _; apply appends_ret].
    destruct (Rltb (MinorDiameter obj) d); [apply appends_error | apply appends_ret].
  - apply appends_ret.
Qed.

Lemma shaped_comment gcode msg :
  (msg = "lead-in" \/ msg = "finish-thread" \/ msg = "lead-out")%string ->
  Forall (shaped gcode) (comment [] msg).
Proof.
  intros [-> | [-> | ->]]; (apply Forall_cons; [|apply Forall_nil]);
    right; right; right; split; reflexivity.
Qed.

(** Proves [Forall P] of an explicit list from the facts at hand. *)
Ltac shaped_list :=
  repeat first [ apply Forall_nil | apply Forall_cons; [solve [auto] |] ].

(** Every command of a pass is a G0, a G1, an arc [cmd] or a comment. *)
Lemma threadCommands_shaped isRoughly fuel center cmd zStart zFinal pitch radius leadInOut
    elevator cmds :
  threadCommands isRoughly fuel center cmd zStart zFinal pitch radius leadInOut elevator
    = Ok cmds ->
  Forall (shaped cmd) cmds.
Proof.
  unfold threadCommands. cbv zeta.
  set (thread := ThreadInternal.init cmd zStart zFinal pitch).
  assert (Harc : forall p, shaped cmd (Path.Build_Command (ThreadInternal.cmd thread) p))
    by (intros p; right; right; left; reflexivity).
  assert (HG0 : forall p, shaped cmd (G0 p)) by (intros p; left; reflexivity).
  assert (HG1 : forall p, shaped cmd (G1 p)) by (intros p; right; left; reflexivity).
  assert (Hcom : forall path msg,
             (msg = "lead-in" \/ msg = "finish-thread" \/ msg = "lead-out")%string ->
             Forall (shaped cmd) path -> Forall (shaped cmd) (comment path msg)).
  { intros path msg Hmsg Hpath. change (comment path msg) with (path ++ comment [] msg).
    apply Forall_app. split; [assumption | apply shaped_comment; assumption]. }
  assert (Hentry : Forall (shaped cmd)
                     (threadCommands_entry thread center radius leadInOut elevator)).
  { unfold threadCommands_entry. cbv zeta. destruct leadInOut.
    - apply Hcom; [auto|]. apply Forall_app. split; [|shaped_list].
      apply Hcom; [auto|]. shaped_list.
    - shaped_list. }
  destruct (helix isRoughly fuel thread _ _ _ _ _ _) as [[[[path z] r] i]|] eqn:Hhelix;
    [|discriminate].
  destruct (helix_invariant _ _ _ _ _ _ _ _ _ _ _ _ _ Hhelix)
    as (arcs & -> & _ & _ & _ & _ & Harcs).
  assert (Hpath : Forall (shaped cmd)
                    (threadCommands_entry thread center radius leadInOut elevator ++ arcs)).
  { apply Forall_app. split; [assumption|].
    eapply Forall_impl; [|exact Harcs]. intros c Hc. right; right; left. exact Hc. }
  unfold threadCommands_finish.
  assert (Hexit : forall path x y,
             Forall (shaped cmd) path ->
             Forall (shaped cmd)
               (threadCommands_exit thread center leadInOut elevator path x y)).
  { intros path x y Hp. unfold threadCommands_exit. cbv zeta.
    apply Forall_app. split; [|shaped_list].
    destruct leadInOut; [|assumption].
    apply Hcom; [auto|]. apply Forall_app. split; [|shaped_list].
    apply Hcom; auto. }
  destruct (isRoughly z (ThreadInternal.zFinal thread)).
  - intros H. injection H as <-. apply Hexit. assumption.
  - destruct (Reqb (ThreadInternal.hPitch thread) 0); [discriminate|].
    destruct (finish_point thread center r) as [x y].
    intros H. injection H as <-. apply Hexit.
    apply Hcom; [auto|]. apply Forall_app. split; [|shaped_list].
    apply Hcom; auto.
Qed.

(** The feed tagging turns every command of a pass into a tagged one. *)
Lemma setFeed_tagged self gcode c :
  (gcode = "G2" \/ gcode = "G3")%string -> shaped gcode c -> tagged self (setFeed self c).
Proof.
  intros Hg Hc. destruct c as [name p].
  assert (Hmove : forall n, (n = "G0" \/ n = "G1" \/ n = "G2" \/ n = "G3")%string ->
                            tagged self (setFeed self (Path.Build_Command n p))).
  { intros n [-> | [-> | [-> | ->]]]; unfold tagged, setFeed; cbn;
      rewrite get_update_same; repeat split; intros H;
      try discriminate; try reflexivity;
      destruct H as [H | [H | H]]; discriminate. }
  destruct Hc as [Hn | [Hn | [Hn | [Hm Hp]]]].
  - cbn in Hn. subst name. apply Hmove. auto.
  - cbn in Hn. subst name. apply Hmove. auto.
  - cbn in Hn. subst name. apply Hmove. destruct Hg; auto.
  - cbn in Hm, Hp. subst p. unfold isMove in Hm. cbn [Path.Name] in Hm.
    unfold tagged, setFeed. cbn [Path.Name Path.Parameters existsb] in *.
    destruct (String.eqb name "G0") eqn:E0; [discriminate|].
    destruct (String.eqb name "G1") eqn:E1; [discriminate|].
    destruct (String.eqb name "G2") eqn:E2; [discriminate|].
    destruct (String.eqb name "G3") eqn:E3; [discriminate|].
    cbn. split; [|split]; intros H.
    + subst name. discriminate.
    + destruct H as [H | [H | H]]; subst name; discriminate.
    + reflexivity.
Qed.

Lemma threadSetup_gcode obj :
  (fst (fst (threadSetup obj)) = "G2" \/ fst (fst (threadSetup obj)) = "G3")%string.
Proof.
  unfold threadSetup, threadSetupInternal.
  destruct (Direction obj), (ThreadOrientation obj), (isThreadInternal obj); cbn; auto.
Qed.

Lemma appends_bind_lift {A B} P (r : result A) (k : A -> M B) :
  (forall a, r = Ok a -> appends P (k a)) -> appends P (bind (lift r) k).
Proof.
  intros Hk. destruct r as [a | e |].
  - intros w. exact (Hk a eq_refl w).
  - intros w. exists [], []. cbn. rewrite !app_nil_r. auto.
  - intros w. exists [], []. cbn. rewrite !app_nil_r. auto.
Qed.

Lemma executeThreadMill_appends isRoughly fuel self obj loc gcode zStart zFinal pitch :
  (gcode = "G2" \/ gcode = "G3")%string ->
  appends (tagged self)
    (executeThreadMill isRoughly fuel self obj loc gcode zStart zFinal pitch).
Proof.
  intros Hg.
  assert (Hretract : tagged self
            (G0 [("Z", ClearanceHeight obj); ("F", vertRapid self)]%string)).
  { unfold tagged. cbn. repeat split; intros H; try reflexivity; try discriminate.
    destruct H as [H | [H | H]]; discriminate. }
  unfold executeThreadMill.
  apply appends_bind; [apply appends_elevatorRadius | intros elevator].
  apply appends_bind; [apply appends_append; exact Hretract | intros _].
  apply appends_bind; [apply appends_getattr | intros toolDia].
  apply appends_bind; [apply appends_getattr | intros toolCrest].
  apply appends_bind; [apply appends_lift | intros passes].
  apply appends_bind; [|intros _; apply appends_append; exact Hretract].
  apply appends_forM_. intros radius.
  apply appends_bind_lift. intros cmds Hrun.
  apply appends_extend. apply Forall_map.
  eapply Forall_impl; [|exact (threadCommands_shaped _ _ _ _ _ _ _ _ _ _ _ Hrun)].
  intros c Hc. exact (setFeed_tagged self gcode c Hg Hc).
Qed.

(** X7: whatever the operation, the tool, the holes and the outcome
    (normal return, exception, loop cut short), the planner only appends
    to the command list and to the error log, and every command it
    appends is tagged: a G0 carries F = the vertical rapid, a G1, G2 or G3
    carries F = the horizontal feed, and anything else is a comment
    without parameters. *)
Theorem circularHoleExecute_appends_tagged isRoughly fuel self obj holes :
  appends (tagged self) (circularHoleExecute isRoughly fuel self obj holes).
Proof.
  unfold circularHoleExecute.
  apply appends_bind_lift. intros supported _.
  destruct supported; [|apply appends_error].
  apply appends_bind.
  - apply appends_append. unfold tagged. cbn. repeat split; intros H;
      try reflexivity; try discriminate. destruct H as [H | [H | H]]; discriminate.
  - intros _. pose proof (threadSetup_gcode obj) as Hg.
    destruct (threadSetup obj) as [[cmd zStart] zFinal]. cbn [fst] in Hg. cbv zeta.
    destruct (Rleb _ 0); [apply appends_error|].
    apply appends_forM_. intros loc. apply executeThreadMill_appends. exact Hg.
Qed.

(** ** The planner: one hole *)

Lemma elevatorRadius_no_diameter obj center internal tool w :
  Diameter tool = None ->
  elevatorRadius obj center internal tool w = (Raise AttributeError, w).
Proof.
  intros Hd. unfold elevatorRadius, bind, getattr, lift. rewrite Hd.
  destruct internal; reflexivity.
Qed.

(** A loop over the passes that returns normally has run every pass to
    its end, and has appended their tagged command lists in order. *)
Lemma forM__passes_Ok isRoughly fuel self loc gcode zStart zFinal pitch leadInOut elevator :
  forall passes w w',
    forM_ passes (fun radius =>
      commands <- lift (threadCommands isRoughly fuel loc gcode zStart zFinal pitch radius
                          leadInOut elevator) ;;
      extend (map (setFeed self) commands)) w = (Ok tt, w') ->
    exists lists,
      Forall2 (fun radius cmds =>
                 threadCommands isRoughly fuel loc gcode zStart zFinal pitch radius
                   leadInOut elevator = Ok cmds) passes lists /\
      commandlist w' = commandlist w ++ concat (map (map (setFeed self)) lists) /\
      errors w' = errors w.
Proof.
  induction passes as [|radius passes IH]; intros w w' H; cbn [forM_] in H.
  - injection H as <-. exists []. cbn. rewrite app_nil_r. auto.
  - unfold bind at 1 in H. unfold bind at 1, lift in H.
    destruct (threadCommands isRoughly fuel loc gcode zStart zFinal pitch radius
                leadInOut elevator) as [cmds | e |] eqn:Hrun; try discriminate.
    cbn [extend] in H. apply IH in H. destruct H as (lists & Hall & Hc & He).
    exists (cmds :: lists). cbn [commandlist errors] in Hc, He. repeat split.
    + constructor; assumption.
    + rewrite Hc. cbn [map concat]. rewrite app_assoc. reflexivity.
    + exact He.
Qed.

(** X8: a hole that is planned without exception is planned in full.
    When [executeThreadMill] returns normally, the tool has a diameter and
    a crest, [threadPasses] gave the list of pass radii for [obj.Passes],
    every pass came to its command list with the elevator of
    [elevatorRadius], and the command list has grown by exactly: the
    retract to the clearance height, the tagged commands of the passes in
    the order of their radii, and the retract again. *)
Theorem executeThreadMill_Ok isRoughly fuel self obj loc gcode zStart zFinal pitch w w' :
  executeThreadMill isRoughly fuel self obj loc gcode zStart zFinal pitch w = (Ok tt, w') ->
  exists d c elevator passes lists,
    Diameter (tool self) = Some d /\ Crest (tool self) = Some c /\
    fst (elevatorRadius obj loc (isThreadInternal obj) (tool self) w) = Ok elevator /\
    threadPasses (Passes obj) threadRadii (isThreadInternal obj) (MajorDiameter obj)
      (MinorDiameter obj) d (Some c) = Ok passes /\
    Forall2 (fun radius cmds =>
               threadCommands isRoughly fuel loc gcode zStart zFinal pitch radius
                 (LeadInOut obj) elevator = Ok cmds) passes lists /\
    commandlist w' =
      commandlist w
      ++ [G0 [("Z", ClearanceHeight obj); ("F", vertRapid self)]%string]
      ++ concat (map (map (setFeed self)) lists)
      ++ [G0 [("Z", ClearanceHeight obj); ("F", vertRapid self)]%string].
Proof.
  intros H. unfold executeThreadMill in H.
  destruct (Diameter (tool self)) as [d|] eqn:Hd.
  2:{ unfold bind at 1 in H. rewrite elevatorRadius_no_diameter in H by assumption.
      discriminate. }
  destruct (elevatorRadius_returns obj loc (isThreadInternal obj) (tool self) d w Hd)
    as (elevator & w1 & He & Hw1).
  unfold bind at 1 in H. rewrite He in H.
  unfold bind at 1 in H. cbn [append] in H.
  unfold bind at 1 in H. cbn [getattr ret] in H.
  destruct (Crest (tool self)) as [c|] eqn:Hc; [|discriminate].
  unfold bind at 1 in H. cbn [getattr ret] in H.
  unfold bind at 1, lift at 1 in H.
  destruct (threadPasses (Passes obj) threadRadii (isThreadInternal obj)
              (MajorDiameter obj) (MinorDiameter obj) d (Some c))
    as [passes | e |] eqn:Hpasses; try discriminate.
  unfold bind at 1 in H.
  match type of H with
  | context [forM_ passes ?body ?w2] =>
      destruct (forM_ passes body w2) as [[[] | e |] w3] eqn:Hloop; try discriminate
  end.
  apply forM__passes_Ok in Hloop. destruct Hloop as (lists & Hall & Hcmds & _).
  cbn [append] in H. injection H as <-.
  exists d, c, elevator, passes, lists. rewrite He. repeat split; try assumption.
  cbn [commandlist] in *. rewrite Hcmds, Hw1, <- !app_assoc. reflexivity.
Qed.

(** The example thread at no depth (zStart = zFinal = -5): the hole is
    planned, with one pass. *)
Lemma executeThreadMill_example_run :
  exists w',
    executeThreadMill (isRoughlyWithin 1e-6) 0 example_op example_obj origin "G3"
      (-5) (-5) 1 empty_world = (Ok tt, w').
Proof.
  unfold executeThreadMill.
  change (isThreadInternal example_obj) with true.
  change (tool example_op) with {| Label := Some "T1"%string; Diameter := Some 3; Crest := Some 0.5 |}.
  unfold bind at 1. rewrite (elevatorRadius_internal_run _ _ _ 3) by reflexivity.
  cbv zeta. change (MinorDiameter example_obj) with 8.5.
  rewrite (Rltb_false _ 0) by lra.
  unfold bind at 1. cbn [append].
  unfold bind at 1. cbn [getattr ret Diameter].
  unfold bind at 1. cbn [getattr ret Crest].
  unfold bind at 1, lift at 1.
  rewrite threadPasses_Ok by (cbn; lia). cbv zeta.
  change (Passes example_obj) with 1%Z. change (range 1) with [0%Z].
  cbn [map forM_]. unfold bind at 1. unfold bind at 1, lift at 1.
  rewrite threadCommands_zero_depth_run.
  - cbn [LeadInOut example_obj app extend bind ret append]. eexists. reflexivity.
  - apply isRoughlyWithin_near. lra.
  - rewrite threadRadii_internal. cbn [fst snd]. unfold SQRT_3_DIVIDED_BY_2.
    change (MajorDiameter example_obj) with 10. change (IZR (0 + 1)) with 1. lra.
Qed.

Lemma executeThreadMill_Ok_witness :
  exists w' d c elevator passes lists,
    executeThreadMill (isRoughlyWithin 1e-6) 0 example_op example_obj origin "G3"
      (-5) (-5) 1 empty_world = (Ok tt, w') /\
    Diameter (tool example_op) = Some d /\ Crest (tool example_op) = Some c /\
    fst (elevatorRadius example_obj origin (isThreadInternal example_obj)
           (tool example_op) empty_world) = Ok elevator /\
    threadPasses (Passes example_obj) threadRadii (isThreadInternal example_obj)
      (MajorDiameter example_obj) (MinorDiameter example_obj) d (Some c) = Ok passes /\
    Forall2 (fun radius cmds =>
               threadCommands (isRoughlyWithin 1e-6) 0 origin "G3" (-5) (-5) 1 radius
                 (LeadInOut example_obj) elevator = Ok cmds) passes lists /\
    commandlist w' =
      commandlist empty_world
      ++ [G0 [("Z", ClearanceHeight example_obj); ("F", vertRapid example_op)]%string]
      ++ concat (map (map (setFeed example_op)) lists)
      ++ [G0 [("Z", ClearanceHeight example_obj); ("F", vertRapid example_op)]%string].
Proof.
  destruct executeThreadMill_example_run as [w' Hrun].
  destruct (executeThreadMill_Ok _ _ _ _ _ _ _ _ _ _ _ Hrun)
    as (d & c & elevator & passes & lists & H).
  exists w', d, c, elevator, passes, lists. split; [exact Hrun | exact H].
Defined.

(** ** The pass radii: inside the envelope *)

Lemma In_range (count i : Z) : In i (range count) <-> (0 <= i < count)%Z.
Proof.
  unfold range. rewrite in_map_iff. split.
  - intros (n & <- & Hn). apply in_seq in Hn. lia.
  - intros Hi. exists (Z.to_nat i). split; [lia | apply in_seq; lia].
Qed.

(** X9: every pass radius lies inside the envelope: for every count >= 1
    and every [radii] function, each element of the list that
    [threadPasses] returns lies between the two radii that [radii] gave,
    whichever of them is the larger. *)
Theorem threadPasses_within_envelope (count : Z) (radii : radii_fn) internal
    majorDia minorDia toolDia toolCrest :
  (1 <= count)%Z ->
  exists l,
    threadPasses count radii internal majorDia minorDia toolDia toolCrest = Ok l /\
    let a := fst (radii internal majorDia minorDia toolDia toolCrest) in
    let b := snd (radii internal majorDia minorDia toolDia toolCrest) in
    Forall (fun x => Rmin a b <= x <= Rmax a b) l.
Proof.
  intros Hc. rewrite threadPasses_Ok by lia. cbv zeta.
  eexists; split; [reflexivity|].
  set (a := fst _). set (b := snd _).
  apply Forall_forall. intros x Hx. apply in_map_iff in Hx.
  destruct Hx as (i & <- & Hi). apply In_range in Hi.
  assert (Hpos : 0 < IZR count) by (apply IZR_lt; lia).
  assert (H1 : 0 < IZR (i + 1)) by (apply IZR_lt; lia).
  assert (H2 : IZR (i + 1) <= IZR count) by (apply IZR_le; lia).
  set (t := IZR (i + 1) / IZR count).
  assert (Ht : 0 < t <= 1).
  { unfold t. split.
    - apply Rdiv_lt_0_compat; assumption.
    - apply (Rmult_le_reg_r (IZR count)); [assumption|].
      unfold Rdiv. rewrite Rmult_assoc, Rinv_l by lra. lra. }
  assert (Hdr : (b - a) / IZR count * IZR (i + 1) = (b - a) * t)
    by (unfold t; field; lra).
  rewrite Hdr.
  unfold Rmin, Rmax. destruct (Rle_dec a b); destruct internal; split; nra.
Qed.

Lemma threadPasses_within_envelope_witness :
  (1 <= 3)%Z /\
  exists l,
    threadPasses 3 threadRadii false 10 8.5 3 (Some 0.5) = Ok l /\
    Forall (fun x => Rmin (fst (threadRadii false 10 8.5 3 (Some 0.5)))
                       (snd (threadRadii false 10 8.5 3 (Some 0.5))) <= x
                     <= Rmax (fst (threadRadii false 10 8.5 3 (Some 0.5)))
                          (snd (threadRadii false 10 8.5 3 (Some 0.5)))) l.
Proof.
  assert (Hc : (1 <= 3)%Z) by lia.
  split; [exact Hc|].
  exact (threadPasses_within_envelope 3 threadRadii false 10 8.5 3 (Some 0.5) Hc).
Defined.

(** ** The pass radii of [threadPassRadii] *)

Lemma strictly_increasing_snoc (l : list R) (a : R) :
  strictly_increasing l -> (l = [] \/ last l 0 < a) -> strictly_increasing (l ++ [a]).
Proof.
  induction l as [|x l IH]; intros Hl Hlast; [exact I|].
  destruct l as [|y l].
  - cbn. destruct Hlast as [H|H]; [discriminate | cbn in H; auto].
  - cbn [app strictly_increasing] in *. destruct Hl as [Hxy Hl]. split; [assumption|].
    apply IH; [assumption|]. right. destruct Hlast as [H|H]; [discriminate | exact H].
Qed.

Lemma strictly_decreasing_rev (l : list R) :
  strictly_decreasing l -> strictly_increasing (rev l).
Proof.
  induction l as [|x l IH]; intros Hl; [exact I|].
  cbn [rev]. apply strictly_increasing_snoc.
  - apply IH. destruct l; [exact I | exact (proj2 Hl)].
  - destruct l as [|y l]; [left; reflexivity|].
    right. cbn [rev]. rewrite last_last. exact (proj1 Hl).
Qed.

Lemma range_from_1 (n : Z) :
  0%Z :: range_from 1 n = map Z.of_nat (seq 0 (S (Z.to_nat (n - 1)))).
Proof.
  unfold range_from. cbn [seq map]. f_equal.
  rewrite <- seq_shift, map_map. apply map_ext. intros k. lia.
Qed.

(** X10: [threadPassRadii], for a tool of diameter [d]: a pass count
    below 1 is raised to 1 on the object (nothing else of it changes), and
    the list returned has as many radii as the count, ends on the radius
    (MajorDiameter - d)/2, and - with MinorDiameter < MajorDiameter - is
    strictly increasing with every radius above (MinorDiameter - d)/2 and
    at most (MajorDiameter - d)/2. *)
Theorem threadPassRadii_passes self obj d :
  Diameter (tool self) = Some d ->
  exists l,
    threadPassRadii self obj
      = Ok (if (Passes obj <? 1)%Z then set_Passes obj 1 else obj, l) /\
    length l = Z.to_nat (Z.max 1 (Passes obj)) /\
    last l 0 = (MajorDiameter obj - d) / 2 /\
    (MinorDiameter obj < MajorDiameter obj ->
     strictly_increasing l /\
     Forall (fun x => (MinorDiameter obj - d) / 2 < x <= (MajorDiameter obj - d) / 2) l).
Proof.
  intros Hd. unfold threadPassRadii. rewrite Hd. cbv zeta.
  set (obj' := if (Passes obj <? 1)%Z then set_Passes obj 1 else obj).
  assert (Hn : Passes obj' = Z.max 1 (Passes obj)).
  { unfold obj'. destruct (Z.ltb_spec (Passes obj) 1); cbn; lia. }
  assert (HM : MajorDiameter obj' = MajorDiameter obj)
    by (unfold obj'; destruct (Passes obj <? 1)%Z; reflexivity).
  set (n := Passes obj') in *.
  set (rMajor := (MajorDiameter obj - d) / 2).
  set (rMinor := (MinorDiameter obj - d) / 2).
  set (rPass := (rMajor - rMinor) / IZR n).
  set (f := fun i : Z => rMajor - rPass * IZR i).
  assert (Hlist : rMajor :: map f (range_from 1 n)
                  = map f (map Z.of_nat (seq 0 (S (Z.to_nat (n - 1)))))).
  { rewrite <- range_from_1. cbn [map]. f_equal. unfold f. lra. }
  eexists. split; [reflexivity|]. rewrite Hlist. split; [|split].
  - rewrite length_rev, !length_map, length_seq. lia.
  - rewrite <- Hlist. cbn [rev]. apply last_last.
  - intros Hlt.
    assert (Hpos : 0 < IZR n) by (apply IZR_lt; lia).
    assert (Hr : 0 < rPass).
    { unfold rPass, rMajor, rMinor. apply Rdiv_lt_0_compat; lra. }
    split.
    + apply strictly_decreasing_rev. apply map_step_decreasing.
      intros i. unfold f. rewrite plus_IZR. lra.
    + apply Forall_rev. apply Forall_forall. intros x Hx.
      apply in_map_iff in Hx. destruct Hx as (i & <- & Hi).
      apply in_map_iff in Hi. destruct Hi as (k & <- & Hk). apply in_seq in Hk.
      assert (H0 : 0 <= IZR (Z.of_nat k)) by (apply IZR_le; lia).
      assert (H1 : IZR (Z.of_nat k) <= IZR n - 1).
      { rewrite <- (minus_IZR n 1). apply IZR_le. lia. }
      assert (Hprod : rPass * IZR n = rMajor - rMinor) by (unfold rPass; field; lra).
      unfold f. split; nra.
Qed.

Lemma threadPassRadii_passes_witness :
  Diameter (tool example_op) = Some 3 /\
  exists l,
    threadPassRadii example_op example_obj
      = Ok (if (Passes example_obj <? 1)%Z then set_Passes example_obj 1 else example_obj, l) /\
    length l = Z.to_nat (Z.max 1 (Passes example_obj)) /\
    last l 0 = (MajorDiameter example_obj - 3) / 2 /\
    (MinorDiameter example_obj < MajorDiameter example_obj ->
     strictly_increasing l /\
     Forall (fun x => (MinorDiameter example_obj - 3) / 2 < x
                      <= (MajorDiameter example_obj - 3) / 2) l).
Proof.
  split; [reflexivity|].
  exact (threadPassRadii_passes example_op example_obj 3 eq_refl).
Defined.

(** ** The direction resolver: symmetries *)

(** X11: for objects that differ only in one property, [threadSetup]
    obeys three symmetries.  Changing Direction (Climb against
    Conventional) flips the arc command and swaps the two depths, so the
    hand of the helix is kept; changing ThreadOrientation (RightHand
    against LeftHand) keeps the arc command and swaps the two depths; and
    in every case the command is G2 or G3 and the depths are the object's
    StartDepth and FinalDepth in one order or the other. *)
Theorem threadSetup_symmetries (o : Orientation) (t : ThreadTypeName)
    (major minor pitch : R) (tpi passes : Z) (dir : CutDirection) (lead : bool)
    (s f c : R) :
  let obj d h := Build_Obj h t major minor pitch tpi passes d lead s f c in
  let flip g := if String.eqb g "G2" then "G3"%string else "G2"%string in
  (forall h,
     threadSetup (obj DirectionConventional h)
     = (flip (fst (fst (threadSetup (obj DirectionClimb h)))),
        snd (threadSetup (obj DirectionClimb h)),
        snd (fst (threadSetup (obj DirectionClimb h))))) /\
  (forall d,
     threadSetup (obj d LeftHand)
     = (fst (fst (threadSetup (obj d RightHand))),
        snd (threadSetup (obj d RightHand)),
        snd (fst (threadSetup (obj d RightHand))))) /\
  (fst (fst (threadSetup (obj dir o))) = "G2"%string \/
   fst (fst (threadSetup (obj dir o))) = "G3"%string) /\
  ((snd (fst (threadSetup (obj dir o))), snd (threadSetup (obj dir o))) = (s, f) \/
   (snd (fst (threadSetup (obj dir o))), snd (threadSetup (obj dir o))) = (f, s)).
Proof.
  intros obj flip. subst obj flip. unfold threadSetup, threadSetupInternal, isThreadInternal.
  cbn [Direction ThreadOrientation ThreadType StartDepth FinalDepth].
  destruct (in_dec ThreadTypeName_eq_dec t ThreadTypesInternal);
    (split; [intros []; reflexivity | split; [intros []; reflexivity|]]);
    destruct dir, o; cbn; auto.
Qed.

(** ** The planner: tools it refuses, the defaults *)

(** X12: the tools the planner refuses.  A tool that has a Label but
    lacks the Diameter or the Crest attribute is refused: the planner logs
    the no-suitable-tool diagnostic, returns normally and appends nothing
    to the command list, not even the header comment.  A tool without a
    Label makes the support test itself raise AttributeError (the label
    is read for the trace call): nothing is logged and nothing appended.
    This holds whatever the operation and the holes. *)
Theorem circularHoleExecute_refuses_tool isRoughly fuel self obj holes w :
  Label (tool self) = None \/ Diameter (tool self) = None \/ Crest (tool self) = None ->
  (Label (tool self) = None ->
   circularHoleExecute isRoughly fuel self obj holes w = (Raise AttributeError, w)) /\
  (Label (tool self) <> None ->
   circularHoleExecute isRoughly fuel self obj holes w = (Ok tt, logged w NoSuitableTool)) /\
  commandlist (snd (circularHoleExecute isRoughly fuel self obj holes w)) = commandlist w.
Proof.
  intros Hmissing.
  destruct (Label (tool self)) as [l|] eqn:Hl.
  - assert (Hsup : isToolSupported obj (tool self) = Ok false).
    { unfold isToolSupported. rewrite Hl.
      destruct Hmissing as [H | [H | H]]; [discriminate | rewrite H | rewrite H];
        [reflexivity | destruct (Diameter (tool self)); reflexivity]. }
    rewrite circularHoleExecute_unsupported by assumption.
    split; [discriminate | split; reflexivity].
  - assert (Hsup : isToolSupported obj (tool self) = Raise AttributeError).
    { unfold isToolSupported. rewrite Hl. reflexivity. }
    rewrite (circularHoleExecute_raises _ _ _ _ _ _ _ Hsup).
    split; [reflexivity | split; [congruence | reflexivity]].
Qed.

Lemma circularHoleExecute_refuses_tool_witness :
  let no_crest := {| tool := {| Label := Some "T1"%string; Diameter := Some 3; Crest := None |};
                     vertRapid := 100; horizFeed := 50 |} in
  let no_label := {| tool := {| Label := None; Diameter := Some 3; Crest := Some 0.5 |};
                     vertRapid := 100; horizFeed := 50 |} in
  (Label (tool no_crest) = None \/ Diameter (tool no_crest) = None
   \/ Crest (tool no_crest) = None) /\
  (Label (tool no_label) = None \/ Diameter (tool no_label) = None
   \/ Crest (tool no_label) = None) /\
  circularHoleExecute (isRoughlyWithin 1e-6) 100 no_crest example_obj [(0, 0)] empty_world
    = (Ok tt, logged empty_world NoSuitableTool) /\
  circularHoleExecute (isRoughlyWithin 1e-6) 100 no_label example_obj [(0, 0)] empty_world
    = (Raise AttributeError, empty_world).
Proof.
  intros no_crest no_label.
  assert (H1 : Label (tool no_crest) = None \/ Diameter (tool no_crest) = None
               \/ Crest (tool no_crest) = None) by (right; right; reflexivity).
  assert (H2 : Label (tool no_label) = None \/ Diameter (tool no_label) = None
               \/ Crest (tool no_label) = None) by (left; reflexivity).
  split; [exact H1 | split; [exact H2 | split]].
  - apply (circularHoleExecute_refuses_tool (isRoughlyWithin 1e-6) 100 no_crest example_obj
             [(0, 0)] empty_world H1). discriminate.
  - apply (circularHoleExecute_refuses_tool (isRoughlyWithin 1e-6) 100 no_label example_obj
             [(0, 0)] empty_world H2). reflexivity.
Defined.

(** X13: an operation with the default values plans.  After
    [opSetDefaultValues], whatever the object was before, the thread is
    internal, [threadSetup] gives the counter-clockwise arc G3 from
    FinalDepth up to StartDepth, the only pass of [threadPasses] is at the
    final radius of the envelope, and with a supported tool
    [circularHoleExecute] passes the pitch check and runs every hole with
    pitch 1; the diameters, depths and clearance height are those the
    object had. *)
Theorem opSetDefaultValues_plans {Job : Type} isRoughly fuel self (obj : OpObj) (job : Job)
    holes w :
  isToolSupported (props obj) (tool self) = Ok true ->
  let o := props (opSetDefaultValues obj job) in
  isThreadInternal o = true /\
  threadSetup o = ("G3"%string, FinalDepth (props obj), StartDepth (props obj)) /\
  (forall toolDia toolCrest,
     exists radius,
       threadPasses (Passes o) threadRadii (isThreadInternal o) (MajorDiameter o)
         (MinorDiameter o) toolDia toolCrest = Ok [radius] /\
       radius = snd (threadRadii true (MajorDiameter (props obj))
                       (MinorDiameter (props obj)) toolDia toolCrest)) /\
  circularHoleExecute isRoughly fuel self o holes w =
    forM_ holes (fun loc =>
      executeThreadMill isRoughly fuel self o
        {| FreeCAD.x := fst loc; FreeCAD.y := snd loc; FreeCAD.z := 0 |}
        "G3" (FinalDepth (props obj)) (StartDepth (props obj)) 1) (begun w).
Proof.
  intros Hsup o. subst o. repeat split.
  - intros toolDia toolCrest. eexists. split.
    + rewrite threadPasses_Ok by (cbn; lia). reflexivity.
    + cbn. lra.
  - rewrite circularHoleExecute_run by exact Hsup. cbn.
    rewrite Rleb_false by lra. reflexivity.
Qed.

Lemma opSetDefaultValues_plans_witness :
  let obj := {| props := set_Passes example_obj 0; ThreadFit := 0; ThreadName := "M10" |} in
  isToolSupported (props obj) (tool example_op) = Ok true /\
  (let o := props (opSetDefaultValues obj tt) in
   isThreadInternal o = true /\
   threadSetup o = ("G3"%string, FinalDepth (props obj), StartDepth (props obj)) /\
   (forall toolDia toolCrest,
      exists radius,
        threadPasses (Passes o) threadRadii (isThreadInternal o) (MajorDiameter o)
          (MinorDiameter o) toolDia toolCrest = Ok [radius] /\
        radius = snd (threadRadii true (MajorDiameter (props obj))
                        (MinorDiameter (props obj)) toolDia toolCrest)) /\
   circularHoleExecute (isRoughlyWithin 1e-6) 100 example_op o [(0, 0)] empty_world =
     forM_ [(0, 0)] (fun loc =>
       executeThreadMill (isRoughlyWithin 1e-6) 100 example_op o
         {| FreeCAD.x := fst loc; FreeCAD.y := snd loc; FreeCAD.z := 0 |}
         "G3" (FinalDepth (props obj)) (StartDepth (props obj)) 1) (begun empty_world)).
Proof.
  intros obj. split; [reflexivity|].
  exact (opSetDefaultValues_plans (isRoughlyWithin 1e-6) 100 example_op obj tt [(0, 0)]
           empty_world eq_refl).
Defined.

(** ** Enumerations and class tables *)



(** X15: the class tables agree.  Every thread type is in [ThreadTypes],
    and there in exactly one of [ThreadTypesInternal] and
    [ThreadTypesExternal]; [ThreadTypeData] names a data file for a type
    exactly when the type is imperial or metric, that is, for every type
    but the two custom ones; and no type is both imperial and metric. *)
Theorem ThreadType_tables_agree (t : ThreadTypeName) :
  In t ThreadTypes /\
  (In t ThreadTypesInternal <-> ~ In t ThreadTypesExternal) /\
  (In t (map fst ThreadTypeData) <-> In t ThreadTypesImperial \/ In t ThreadTypesMetric) /\
  (In t (map fst ThreadTypeData) <->
   t <> ThreadTypeCustomExternal /\ t <> ThreadTypeCustomInternal) /\
  ~ (In t ThreadTypesImperial /\ In t ThreadTypesMetric) /\
  NoDup (map fst ThreadTypeData).
Proof.
  split; [destruct t; cbn; tauto|].
  split; [destruct t; cbn; intuition discriminate|].
  split; [destruct t; cbn; intuition discriminate|].
  split; [destruct t; cbn; intuition (discriminate || congruence)|].
  split; [destruct t; cbn; intuition discriminate|].
  cbn. repeat (apply NoDup_cons; [cbn; intuition discriminate|]). apply NoDup_nil.
Qed.

(** ** One pass: how it begins and ends *)

(** X16: every pass that returns begins by positioning: its first command
    is the rapid move in X and Y to the elevator point
    (center.x, center.y + elevator), its second the rapid move in Z to
    zStart; no arc or feed move comes before them; and its last command is
    a linear move G1 in X and Y. *)
Theorem threadCommands_begins_with_rapids isRoughly fuel center cmd zStart zFinal pitch
    radius leadInOut elevator cmds :
  threadCommands isRoughly fuel center cmd zStart zFinal pitch radius leadInOut elevator
    = Ok cmds ->
  exists rest x y,
    cmds = [G0 [("X", FreeCAD.x center); ("Y", FreeCAD.y center + elevator)]%string;
            G0 [("Z", zStart)]%string]
           ++ rest ++ [G1 [("X", x); ("Y", y)]%string].
Proof.
  unfold threadCommands. cbv zeta.
  set (thread := ThreadInternal.init cmd zStart zFinal pitch).
  assert (Hentry : exists more,
             threadCommands_entry thread center radius leadInOut elevator
             = [G0 [("X", FreeCAD.x center); ("Y", FreeCAD.y center + elevator)]%string;
                G0 [("Z", zStart)]%string] ++ more).
  { unfold threadCommands_entry, comment. cbv zeta.
    destruct leadInOut; rewrite <- ?app_assoc; eexists; reflexivity. }
  destruct Hentry as [more Hentry].
  assert (Hexit : forall path x y, exists tail x' y',
             threadCommands_exit thread center leadInOut elevator path x y
             = path ++ tail ++ [G1 [("X", x'); ("Y", y')]%string]).
  { intros path x y. unfold threadCommands_exit, comment. cbv zeta.
    destruct leadInOut; rewrite <- ?app_assoc.
    - eexists [_; _; _], _, _. cbn [app]. reflexivity.
    - eexists [], _, _. reflexivity. }
  destruct (helix isRoughly fuel thread _ _ _ _ _ _) as [[[[path z] r] i]|] eqn:Hhelix;
    [|discriminate].
  destruct (helix_invariant _ _ _ _ _ _ _ _ _ _ _ _ _ Hhelix) as (arcs & -> & _).
  unfold threadCommands_finish.
  destruct (isRoughly z (ThreadInternal.zFinal thread)).
  - intros H. injection H as <-.
    match goal with
    | |- context [threadCommands_exit ?t ?c ?l ?e ?p ?x ?y] =>
        destruct (Hexit p x y) as (tail & x' & y' & ->)
    end.
    rewrite Hentry. exists (more ++ arcs ++ tail), x', y'.
    rewrite <- !app_assoc. reflexivity.
  - destruct (Reqb (ThreadInternal.hPitch thread) 0); [discriminate|].
    destruct (finish_point thread center r) as [x y].
    intros H. injection H as <-.
    match goal with
    | |- context [threadCommands_exit ?t ?c ?l ?e ?p ?x ?y] =>
        destruct (Hexit p x y) as (tail & x' & y' & ->)
    end.
    rewrite Hentry. unfold comment. rewrite <- !app_assoc.
    match goal with
    | |- context [more ++ arcs ++ ?c1 ++ ?fin ++ ?c2 ++ tail ++ _] =>
        exists (more ++ arcs ++ c1 ++ fin ++ c2 ++ tail), x', y'
    end.
    rewrite <- !app_assoc. reflexivity.
Qed.

Lemma threadCommands_begins_with_rapids_witness :
  exists cmds rest x y,
    threadCommands (isRoughlyWithin 1e-6) 0 origin "G3" 3 3 2 1 false 4 = Ok cmds /\
    cmds = [G0 [("X", FreeCAD.x origin); ("Y", FreeCAD.y origin + 4)]%string;
            G0 [("Z", 3)]%string]
           ++ rest ++ [G1 [("X", x); ("Y", y)]%string].
Proof.
  assert (Hrun : threadCommands (isRoughlyWithin 1e-6) 0 origin "G3" 3 3 2 1 false 4
                 = Ok ([G0 [("X", FreeCAD.x origin); ("Y", FreeCAD.y origin + 4)]%string;
                        G0 [("Z", 3)]%string]
                       ++ [G1 [("Y", FreeCAD.y origin + 1)]%string]
                       ++ []
                       ++ [G1 [("X", FreeCAD.x origin);
                               ("Y", FreeCAD.y origin + 4)]%string])).
  { apply (threadCommands_zero_depth_run (isRoughlyWithin 1e-6) 0 origin "G3" 3 3 2 1
             false 4); [apply isRoughlyWithin_near; lra | lra]. }
  destruct (threadCommands_begins_with_rapids _ _ _ _ _ _ _ _ _ _ _ Hrun)
    as (rest & x & y & Heq).
  eexists _, rest, x, y. split; [exact Hrun | exact Heq].
Defined.
